(** * native-keyvault: the [CredentialStore] class of [src/index.ts]

    A shallow embedding of the credential store: the facade
    ([save], [get], [delete]), the per-platform native back ends that
    drive an external command, and the encrypted file fall-back
    ([_ensureCache], [_readCache], [_writeCache], [_encrypt], [_decrypt],
    [_saveFallback], [_getFallback], [_deleteFallback]).

    Conventions of the embedding.
    - A JavaScript string is a Rocq [string], well-formed text being
      represented by its UTF-8 encoding; a Node [Buffer] is a [list byte].
      The conversions between the two ([utf8_encode], [utf8_decode]) are
      operations of [NodeLib]: Node replaces a lone surrogate by U+FFFD
      when it encodes, and an ill-formed sequence by U+FFFD when it
      decodes, so a string comes back from the two conversions only when
      it is well formed ([utf8_stable]).
    - [null] is [None]; a method returning [string | null] returns
      [option string].
    - Every method runs in the monad [M]: it takes the state of the host
      ([World]) and returns an [Outcome] (a value, or a thrown [JsError])
      together with the new state.
    - The functions of Node that the class calls and that are not part of
      the repository (UTF-8, base64, AES-256-GCM, JSON, [path.join]) are
      the operations of the class [NodeLib], with the part of their
      contract the code relies on. *)

From Stdlib Require Import Strings.String Strings.Ascii Strings.Byte.
From Stdlib Require Import List ZArith Lia.
From stdpp Require Import gmap strings list fin_maps.

Local Open Scope string_scope.

(** ** Exceptions and the monad of effects *)

Inductive JsError : Type :=
| ExecError (cmd : string)           (* execSync: the command failed *)
| FsError (code : string) (path : string)
| SyntaxError                        (* JSON.parse *)
| TypeError                          (* Buffer.from on a value that is no string *)
| CryptoError (msg : string)         (* node:crypto *)
| Error (msg : string).              (* new Error(msg) *)

Inductive Outcome (A : Type) : Type :=
| Return (a : A)
| Throw (e : JsError).
Arguments Return {A} a.
Arguments Throw {A} e.

(** One call of [execSync]: the command line handed to the shell, and what
    was written to the standard input of the process, if anything. *)
Record ExecCall : Type := mkExecCall {
  exec_cmd : string;
  exec_input : option string
}.

(** The state of the host.  [tool] is the behaviour of the external
    commands: given the calls made so far and the present call, it may
    read and write files, and either prints its output or fails.
    The failures of the file system are those of the host:
    [write_refused p] is the error code, if any, with which the host
    refuses to create [p] or to open it for writing ([EACCES],
    [ENOTDIR], [EROFS], ...); [disk_free], when it is [Some n], is the
    number of bytes the device still takes, and [write_error] is the
    code with which a write that goes beyond them stops ([ENOSPC],
    [EDQUOT], [EFBIG], [EIO], ...). *)
Record World : Type := mkWorld {
  platform : string;
  homedir : string;
  APPDATA : option string;
  dirs : gset string;
  files : gmap string (list byte);
  modes : gmap string N;
  chmod_supported : bool;
  disk_free : option nat;
  rng : nat -> byte;
  rng_pos : nat;
  tool : list ExecCall -> ExecCall -> gmap string (list byte) ->
         option string * gmap string (list byte);
  exec_log : list ExecCall;
  warnings : list string;
  write_refused : string -> option string;
  write_error : string
}.

Definition M (A : Type) : Type := World -> Outcome A * World.

Definition ret {A} (a : A) : M A := fun w => (Return a, w).

Definition throw {A} (e : JsError) : M A := fun w => (Throw e, w).

Definition bind {A B} (m : M A) (k : A -> M B) : M B :=
  fun w =>
    match m w with
    | (Return a, w') => k a w'
    | (Throw e, w') => (Throw e, w')
    end.

Definition try_catch {A} (m : M A) (handler : JsError -> M A) : M A :=
  fun w =>
    match m w with
    | (Return a, w') => (Return a, w')
    | (Throw e, w') => handler e w'
    end.

Notation "x <- m ;; k" := (bind m (fun x => k))
  (at level 60, m at next level, right associativity).
Notation "m ;;; k" := (bind m (fun _ => k))
  (at level 60, right associativity).

(** ** Strings *)

Definition dquote : string := String "034"%char EmptyString.
Definition newline : string := String "010"%char EmptyString.

Definition quoted (s : string) : string := dquote +:+ s +:+ dquote.

(** [s.replace(/"/g, '\\"')] *)
Fixpoint escape_dquotes (s : string) : string :=
  match s with
  | EmptyString => EmptyString
  | String c s' =>
      if Ascii.eqb c "034"%char
      then String "092"%char (String "034"%char (escape_dquotes s'))
      else String c (escape_dquotes s')
  end.

(** [String.prototype.trim]: white space and line terminators of
    ECMAScript, in their UTF-8 encodings of one, two and three bytes. *)
Definition ws1 (a : byte) : bool :=
  match a with
  | x09 | x0a | x0b | x0c | x0d | x20 => true
  | _ => false
  end.

Definition ws2 (a b : byte) : bool :=
  match a, b with
  | xc2, xa0 => true                       (* U+00A0 *)
  | _, _ => false
  end.

Definition ws3 (a b c : byte) : bool :=
  match a, b, c with
  | xe1, x9a, x80 => true                  (* U+1680 *)
  | xe2, x80, (x80 | x81 | x82 | x83 | x84 | x85 | x86 | x87
               | x88 | x89 | x8a) => true  (* U+2000 .. U+200A *)
  | xe2, x80, (xa8 | xa9 | xaf) => true    (* U+2028, U+2029, U+202F *)
  | xe2, x81, x9f => true                  (* U+205F *)
  | xe3, x80, x80 => true                  (* U+3000 *)
  | xef, xbb, xbf => true                  (* U+FEFF *)
  | _, _, _ => false
  end.

Fixpoint strip_ws (fwd : bool) (l : list byte) : list byte :=
  match l with
  | [] => []
  | a :: l1 =>
      if ws1 a then strip_ws fwd l1 else
      match l1 with
      | [] => l
      | b :: l2 =>
          if (if fwd then ws2 a b else ws2 b a) then strip_ws fwd l2 else
          match l2 with
          | [] => l
          | c :: l3 =>
              if (if fwd then ws3 a b c else ws3 c b a)
              then strip_ws fwd l3 else l
          end
      end
  end.

Definition trimStart_bytes (l : list byte) : list byte := strip_ws true l.
Definition trimEnd_bytes (l : list byte) : list byte :=
  rev (strip_ws false (rev l)).

Definition trim (s : string) : string :=
  string_of_list_byte
    (trimStart_bytes (trimEnd_bytes (list_byte_of_string s))).

(** ** JavaScript objects used as [Record<string, string>]

    The own properties of the object are a finite map.  Reading a key
    that is not an own property falls through to [Object.prototype];
    assigning to [__proto__] when it is not an own property runs the
    setter of [Object.prototype], which ignores a string. *)
Inductive JsValue : Type :=
| JsUndefined
| JsString (s : string)
| JsInherited (name : string).

Definition object_prototype_names : list string :=
  [ "constructor"; "__defineGetter__"; "__defineSetter__"; "hasOwnProperty";
    "__lookupGetter__"; "__lookupSetter__"; "isPrototypeOf";
    "propertyIsEnumerable"; "toString"; "valueOf"; "__proto__";
    "toLocaleString" ].

Definition obj_get (o : gmap string string) (k : string) : JsValue :=
  match o !! k with
  | Some v => JsString v
  | None =>
      if bool_decide (k ∈ object_prototype_names)
      then JsInherited k else JsUndefined
  end.

Definition obj_set (o : gmap string string) (k v : string)
  : gmap string string :=
  if bool_decide (k = "__proto__") && bool_decide (o !! k = None)
  then o else <[k := v]> o.

Definition obj_delete (o : gmap string string) (k : string)
  : gmap string string := delete k o.

(** [!v] is [negb (truthy v)]. *)
Definition truthy (v : JsValue) : bool :=
  match v with
  | JsUndefined => false
  | JsString s => negb (String.eqb s EmptyString)
  | JsInherited _ => true
  end.

(** ** The functions of Node the class relies on *)

Class NodeLib : Type := {
  (* a string as a Buffer ([cipher.update(text, 'utf8')], [writeFileSync]
     of a string) and a Buffer as a string ([buf.toString('utf8')],
     [readFileSync(p, 'utf8')]) *)
  utf8_encode : string -> list byte;
  utf8_decode : list byte -> string;
  (* path.join(a, b) *)
  path_join : string -> string -> string;
  (* buf.toString('base64') and Buffer.from(s, 'base64') *)
  base64_encode : list byte -> string;
  base64_decode : string -> list byte;
  (* AES-256-GCM with a 32-byte key: plaintext to (ciphertext, tag), and
     back; [None] when the tag does not authenticate the ciphertext or an
     argument is refused *)
  gcm_seal : list byte -> list byte -> list byte -> list byte * list byte;
  gcm_open : list byte -> list byte -> list byte -> list byte ->
             option (list byte);
  (* JSON.stringify(o, null, indent) and JSON.parse, on objects whose
     values are strings, as the type Record<string, string> of the cache
     has it; [None] is a SyntaxError.  A text that is JSON of another
     shape (an array, a number, an object with a value that is no
     string) is outside this type: the properties of stored secrets
     below are stated for a mapping file that [JSON_parse] accepts
     ([mapping_typed]) *)
  JSON_stringify : nat -> gmap string string -> string;
  JSON_parse : string -> option (gmap string string);

  base64_decode_encode : forall b, base64_decode (base64_encode b) = b;
  base64_encode_nil : base64_encode [] = EmptyString;
  gcm_tag_length : forall key iv pt, length (gcm_seal key iv pt).2 = 16;
  gcm_open_seal : forall key iv pt,
    length key = 32 -> length iv = 12 ->
    gcm_open key iv (gcm_seal key iv pt).2 (gcm_seal key iv pt).1 = Some pt;
  (* JSON.stringify escapes a lone surrogate, so its text passes
     through a file unchanged and parses to the object it was made from *)
  JSON_parse_stringify : forall indent o,
    JSON_parse (utf8_decode (utf8_encode (JSON_stringify indent o))) = Some o;
  (* the result of path.join is normalised and ends in the file name it
     was given *)
  path_join_files : forall d,
    path_join d "credentials.json" <> path_join d "key.bin";
  path_join_mapping : forall d, path_join d "credentials.json" <> d;
  path_join_key : forall d, path_join d "key.bin" <> d
}.

(** The strings that come back from their UTF-8 encoding: the well-formed
    ones, which hold no lone surrogate. *)
Definition utf8_stable `{NodeLib} (s : string) : Prop :=
  utf8_decode (utf8_encode s) = s.


(** ** Primitive effects: node:fs, node:crypto, node:child_process, console *)

Definition with_dirs (d : gset string) (w : World) : World :=
  mkWorld (platform w) (homedir w) (APPDATA w) d (files w) (modes w)
          (chmod_supported w) (disk_free w) (rng w) (rng_pos w) (tool w)
          (exec_log w) (warnings w) (write_refused w) (write_error w).

Definition with_files (f : gmap string (list byte)) (w : World) : World :=
  mkWorld (platform w) (homedir w) (APPDATA w) (dirs w) f (modes w)
          (chmod_supported w) (disk_free w) (rng w) (rng_pos w) (tool w)
          (exec_log w) (warnings w) (write_refused w) (write_error w).

Definition with_modes (m : gmap string N) (w : World) : World :=
  mkWorld (platform w) (homedir w) (APPDATA w) (dirs w) (files w) m
          (chmod_supported w) (disk_free w) (rng w) (rng_pos w) (tool w)
          (exec_log w) (warnings w) (write_refused w) (write_error w).

Definition with_disk_free (n : option nat) (w : World) : World :=
  mkWorld (platform w) (homedir w) (APPDATA w) (dirs w) (files w) (modes w)
          (chmod_supported w) n (rng w) (rng_pos w) (tool w)
          (exec_log w) (warnings w) (write_refused w) (write_error w).

Definition with_rng_pos (n : nat) (w : World) : World :=
  mkWorld (platform w) (homedir w) (APPDATA w) (dirs w) (files w) (modes w)
          (chmod_supported w) (disk_free w) (rng w) n (tool w)
          (exec_log w) (warnings w) (write_refused w) (write_error w).

Definition with_exec_log (l : list ExecCall) (w : World) : World :=
  mkWorld (platform w) (homedir w) (APPDATA w) (dirs w) (files w) (modes w)
          (chmod_supported w) (disk_free w) (rng w) (rng_pos w) (tool w)
          l (warnings w) (write_refused w) (write_error w).

Definition with_warnings (l : list string) (w : World) : World :=
  mkWorld (platform w) (homedir w) (APPDATA w) (dirs w) (files w) (modes w)
          (chmod_supported w) (disk_free w) (rng w) (rng_pos w) (tool w)
          (exec_log w) l (write_refused w) (write_error w).

Definition path_exists (p : string) (w : World) : bool :=
  bool_decide (p ∈ dirs w) || bool_decide (is_Some (files w !! p)).

Definition existsSync (p : string) : M bool :=
  fun w => (Return (path_exists p w), w).

(** [mkdirSync(p, { recursive: true })]: there is nothing to do when
    the directory is there; otherwise the host may refuse the path, and
    a file of that name is in the way. *)
Definition mkdirSync (p : string) : M unit :=
  fun w =>
    if bool_decide (p ∈ dirs w) then (Return tt, w) else
    match write_refused w p with
    | Some code => (Throw (FsError code p), w)
    | None =>
        match files w !! p with
        | Some _ => (Throw (FsError "EEXIST" p), w)
        | None => (Return tt, with_dirs ({[ p ]} ∪ dirs w) w)
        end
    end.

Definition readFileSync (p : string) : M (list byte) :=
  fun w =>
    match files w !! p with
    | Some data => (Return data, w)
    | None =>
        (Throw (FsError (if bool_decide (p ∈ dirs w)
                         then "EISDIR" else "ENOENT") p), w)
    end.

(** [writeFileSync] opens the file for writing, which the host may
    refuse and which otherwise empties the file, giving its bytes back to
    the device; then it writes the data.  When the device takes no more,
    the bytes written so far stay in the file and the call throws. *)
Definition writeFileSync (p : string) (data : list byte) : M unit :=
  fun w =>
    if bool_decide (p ∈ dirs w) then (Throw (FsError "EISDIR" p), w) else
    match write_refused w p with
    | Some code => (Throw (FsError code p), w)
    | None =>
        match disk_free w with
        | None => (Return tt, with_files (<[p := data]> (files w)) w)
        | Some n =>
            let room := n + length (default [] (files w !! p)) in
            if Nat.leb (length data) room
            then (Return tt,
                  with_disk_free (Some (room - length data))
                    (with_files (<[p := data]> (files w)) w))
            else (Throw (FsError (write_error w) p),
                  with_disk_free (Some 0)
                    (with_files (<[p := take room data]> (files w)) w))
        end
    end.

Definition chmodSync (p : string) (mode : N) : M unit :=
  fun w =>
    if negb (path_exists p w) then (Throw (FsError "ENOENT" p), w)
    else if negb (chmod_supported w) then (Throw (FsError "EPERM" p), w)
    else (Return tt, with_modes (<[p := mode]> (modes w)) w).

Definition unlinkSync (p : string) : M unit :=
  fun w =>
    match files w !! p with
    | Some _ => (Return tt, with_files (delete p (files w)) w)
    | None => (Throw (FsError "ENOENT" p), w)
    end.

(** [crypto.randomBytes(n)]: the next [n] bytes of the generator. *)
Definition next_random (n : nat) (w : World) : list byte :=
  map (rng w) (seq (rng_pos w) n).

Definition randomBytes (n : nat) : M (list byte) :=
  fun w => (Return (next_random n w), with_rng_pos (rng_pos w + n) w).

(** [execSync(cmd, { input })]: the call is recorded, the command runs,
    and a failing command throws. *)
Definition execSync (cmd : string) (input : option string) : M string :=
  fun w =>
    let call := mkExecCall cmd input in
    let r := tool w (exec_log w) call (files w) in
    let w' := with_exec_log (exec_log w ++ [call]) (with_files r.2 w) in
    match r.1 with
    | Some out => (Return out, w')
    | None => (Throw (ExecError cmd), w')
    end.

Definition console_warn (msg : string) : M unit :=
  fun w => (Return tt, with_warnings (warnings w ++ [msg]) w).

(** The text of an exception inside a template literal. *)
Definition error_to_string (e : JsError) : string :=
  match e with
  | ExecError cmd => "Error: Command failed: " +:+ cmd
  | FsError code p => "Error: " +:+ code +:+ ": " +:+ p
  | SyntaxError => "SyntaxError"
  | TypeError => "TypeError"
  | CryptoError msg => "Error: " +:+ msg
  | Error msg => "Error: " +:+ msg
  end.

(** ** The class *)

Record CredentialStore : Type := mkCredentialStore {
  service : string;
  useFallback : bool;
  cacheDir : string;
  cacheFile : string;
  keyFile : string
}.

Section CredentialStore.
Context `{lib : NodeLib}.

(** [new CredentialStore(service, options)]; [fallback] is the value of
    [options?.fallback], [None] when it is undefined. *)
Definition constructor (service : string) (fallback : option bool)
    (w : World) : CredentialStore :=
  let cacheDir := path_join (path_join (homedir w) ".cache") service in
  mkCredentialStore service (default false fallback) cacheDir
    (path_join cacheDir "credentials.json") (path_join cacheDir "key.bin").

Definition _isMac : M bool :=
  fun w => (Return (String.eqb (platform w) "darwin"), w).
Definition _isWindows : M bool :=
  fun w => (Return (String.eqb (platform w) "win32"), w).
Definition _isLinux : M bool :=
  fun w => (Return (String.eqb (platform w) "linux"), w).

(** *** macOS *)

Definition mac_add_command (this : CredentialStore) (account password : string)
  : string :=
  "security add-generic-password -a " +:+ quoted account +:+ " -s " +:+
  quoted (service this) +:+ " -w " +:+ quoted password +:+ " -U".

Definition _saveMac (this : CredentialStore) (account password : string)
  : M unit :=
  execSync (mac_add_command this account password) None ;;; ret tt.

Definition mac_find_command (this : CredentialStore) (account : string)
  : string :=
  "security find-generic-password -a " +:+ quoted account +:+ " -s " +:+
  quoted (service this) +:+ " -w".

Definition _getMac (this : CredentialStore) (account : string)
  : M (option string) :=
  try_catch
    (out <- execSync (mac_find_command this account) None ;;
     ret (Some (trim out)))
    (fun _ => ret None).

Definition _deleteMac (this : CredentialStore) (account : string) : M unit :=
  execSync ("security delete-generic-password -a " +:+ quoted account +:+
            " -s " +:+ quoted (service this)) None ;;; ret tt.

(** *** Windows *)

Definition _getFilePath (this : CredentialStore) (account : string)
  : M string :=
  fun w =>
    let base := match APPDATA w with
                | Some a => if String.eqb a EmptyString then "." else a
                | None => "."
                end in
    let dir := path_join base "keyvault" in
    (e <- existsSync dir ;;
     (if negb e then mkdirSync dir else ret tt) ;;;
     ret (path_join dir (service this +:+ "-" +:+ account +:+ ".txt"))) w.

Definition pwsh_command (script : string) : string :=
  "pwsh -NoProfile -Command " +:+ quoted (escape_dquotes script).

Definition windows_save_script (password file : string) : string :=
  newline +:+
  "$secure = ConvertTo-SecureString '" +:+ password +:+
  "' -AsPlainText -Force" +:+ newline +:+
  "$secure | ConvertFrom-SecureString | Set-Content '" +:+ file +:+ "'" +:+
  newline.

Definition _saveWindows (this : CredentialStore) (account password : string)
  : M unit :=
  file <- _getFilePath this account ;;
  execSync (pwsh_command (windows_save_script password file)) None ;;;
  ret tt.

Definition windows_get_script (file : string) : string :=
  newline +:+
  "$encrypted = Get-Content '" +:+ file +:+ "'" +:+ newline +:+
  "$secure = ConvertTo-SecureString $encrypted" +:+ newline +:+
  "[System.Runtime.InteropServices.Marshal]::PtrToStringAuto(" +:+ newline +:+
  "  [System.Runtime.InteropServices.Marshal]::SecureStringToBSTR($secure)"
  +:+ newline +:+ ")" +:+ newline.

Definition _getWindows (this : CredentialStore) (account : string)
  : M (option string) :=
  file <- _getFilePath this account ;;
  e <- existsSync file ;;
  if negb e then ret None else
  try_catch
    (out <- execSync (pwsh_command (windows_get_script file)) None ;;
     ret (Some (trim out)))
    (fun _ => ret None).

Definition _deleteWindows (this : CredentialStore) (account : string)
  : M unit :=
  file <- _getFilePath this account ;;
  e <- existsSync file ;;
  if e then unlinkSync file else ret tt.

(** *** Linux *)

Definition _hasSecretTool : M bool :=
  try_catch
    (execSync "command -v secret-tool" None ;;; ret true)
    (fun _ => ret false).

Definition secret_tool_missing : JsError :=
  Error ("secret-tool not available. Install libsecret-tools: " +:+
         "sudo apt-get install libsecret-tools").

Definition linux_store_command (this : CredentialStore) (account : string)
  : string :=
  "secret-tool store --label=" +:+ quoted (service this) +:+ " service " +:+
  quoted (service this) +:+ " account " +:+ quoted account.

Definition _saveLinux (this : CredentialStore) (account password : string)
  : M unit :=
  has <- _hasSecretTool ;;
  (if negb has then throw secret_tool_missing else ret tt) ;;;
  execSync (linux_store_command this account) (Some password) ;;; ret tt.

Definition linux_lookup_command (this : CredentialStore) (account : string)
  : string :=
  "secret-tool lookup service " +:+ quoted (service this) +:+ " account " +:+
  quoted account.

Definition _getLinux (this : CredentialStore) (account : string)
  : M (option string) :=
  has <- _hasSecretTool ;;
  (if negb has then throw secret_tool_missing else ret tt) ;;;
  try_catch
    (out <- execSync (linux_lookup_command this account) None ;;
     ret (Some (trim out)))
    (fun _ => ret None).

Definition _deleteLinux (this : CredentialStore) (account : string) : M unit :=
  has <- _hasSecretTool ;;
  (if negb has then throw secret_tool_missing else ret tt) ;;;
  execSync ("secret-tool clear service " +:+ quoted (service this) +:+
            " account " +:+ quoted account) None ;;; ret tt.

(** *** Dispatch on the platform *)

Definition _saveNative (this : CredentialStore) (account password : string)
  : M unit :=
  mac <- _isMac ;;
  if mac then _saveMac this account password else
  win <- _isWindows ;;
  if win then _saveWindows this account password else
  lin <- _isLinux ;;
  if lin then _saveLinux this account password else
  throw (Error "Unsupported platform").

Definition _getNative (this : CredentialStore) (account : string)
  : M (option string) :=
  mac <- _isMac ;;
  if mac then _getMac this account else
  win <- _isWindows ;;
  if win then _getWindows this account else
  lin <- _isLinux ;;
  if lin then _getLinux this account else
  throw (Error "Unsupported platform").

Definition _deleteNative (this : CredentialStore) (account : string)
  : M unit :=
  mac <- _isMac ;;
  if mac then _deleteMac this account else
  win <- _isWindows ;;
  if win then _deleteWindows this account else
  lin <- _isLinux ;;
  if lin then _deleteLinux this account else
  throw (Error "Unsupported platform").

(** *** The encrypted cache *)

(** [createCipheriv('aes-256-gcm', key, iv)], [update], [final] and
    [getAuthTag]: a key that has not 32 bytes is refused. *)
Definition aes256gcm_encrypt (key iv pt : list byte)
  : M (list byte * list byte) :=
  if negb (Nat.eqb (length key) 32)
  then throw (CryptoError "Invalid key length")
  else ret (gcm_seal key iv pt).

(** [createDecipheriv], [setAuthTag], [update] and [final]: [final]
    throws unless the tag authenticates the data. *)
Definition aes256gcm_decrypt (key iv tag enc : list byte) : M (list byte) :=
  if negb (Nat.eqb (length key) 32)
  then throw (CryptoError "Invalid key length")
  else match gcm_open key iv tag enc with
       | Some pt => ret pt
       | None => throw (CryptoError "unable to authenticate data")
       end.

(** The permission bits [0o600]. *)
Definition mode_600 : N := 384%N.

(** [buf.slice(start, end)] and [buf.slice(start)] *)
Definition slice (start stop : nat) (buf : list byte) : list byte :=
  take (stop - start) (drop start buf).
Definition slice_from (start : nat) (buf : list byte) : list byte :=
  drop start buf.

Definition _ensureCache (this : CredentialStore) : M unit :=
  e <- existsSync (cacheDir this) ;;
  (if negb e then mkdirSync (cacheDir this) else ret tt) ;;;
  e <- existsSync (keyFile this) ;;
  (if negb e then
     key <- randomBytes 32 ;;
     writeFileSync (keyFile this) key ;;;
     try_catch
       (chmodSync (keyFile this) mode_600)
       (fun error =>
          console_warn ("Could not set permissions on key file: " +:+
                        error_to_string error))
   else ret tt) ;;;
  e <- existsSync (cacheFile this) ;;
  (if negb e then
     writeFileSync (cacheFile this) (utf8_encode (JSON_stringify 0 ∅)) ;;;
     try_catch
       (chmodSync (cacheFile this) mode_600)
       (fun error =>
          console_warn ("Could not set permissions on cache file: " +:+
                        error_to_string error))
   else ret tt).

Definition _readCache (this : CredentialStore) : M (gmap string string) :=
  _ensureCache this ;;;
  data <- readFileSync (cacheFile this) ;;
  match JSON_parse (utf8_decode data) with
  | Some obj => ret obj
  | None => throw SyntaxError
  end.

Definition _writeCache (this : CredentialStore) (obj : gmap string string)
  : M unit :=
  _ensureCache this ;;;
  writeFileSync (cacheFile this) (utf8_encode (JSON_stringify 2 obj)).

Definition _encrypt (this : CredentialStore) (text : string) : M string :=
  key <- readFileSync (keyFile this) ;;
  iv <- randomBytes 12 ;;
  sealed <- aes256gcm_encrypt key iv (utf8_encode text) ;;
  let enc := sealed.1 in
  let tag := sealed.2 in
  ret (base64_encode (iv ++ tag ++ enc)).

(** The blob [_encrypt] produces for [text] from the key [key], in the
    state [w] of the random generator. *)
Definition sealed_blob (key : list byte) (text : string) (w : World) : string :=
  let iv := next_random 12 w in
  let sealed := gcm_seal key iv (utf8_encode text) in
  base64_encode (iv ++ sealed.2 ++ sealed.1).

Definition _decrypt (this : CredentialStore) (data : JsValue) : M string :=
  key <- readFileSync (keyFile this) ;;
  buf <- match data with
         | JsString s => ret (base64_decode s)
         | _ => throw TypeError
         end ;;
  let iv := slice 0 12 buf in
  let tag := slice 12 28 buf in
  let enc := slice_from 28 buf in
  pt <- aes256gcm_decrypt key iv tag enc ;;
  ret (utf8_decode pt).

Definition _saveFallback (this : CredentialStore) (account password : string)
  : M unit :=
  cache <- _readCache this ;;
  blob <- _encrypt this password ;;
  _writeCache this (obj_set cache account blob).

Definition _getFallback (this : CredentialStore) (account : string)
  : M (option string) :=
  cache <- _readCache this ;;
  if negb (truthy (obj_get cache account)) then ret None else
  try_catch
    (text <- _decrypt this (obj_get cache account) ;; ret (Some text))
    (fun _ => ret None).

Definition _deleteFallback (this : CredentialStore) (account : string)
  : M unit :=
  cache <- _readCache this ;;
  _writeCache this (obj_delete cache account).

(** *** The public methods *)

Definition save (this : CredentialStore) (account password : string)
  : M unit :=
  try_catch
    (if negb (useFallback this)
     then _saveNative this account password
     else _saveFallback this account password)
    (fun error =>
       if negb (useFallback this) then
         console_warn ("Native credential storage failed, using fallback: "
                       +:+ error_to_string error) ;;;
         _saveFallback this account password
       else throw error).

Definition get (this : CredentialStore) (account : string)
  : M (option string) :=
  try_catch
    (if negb (useFallback this)
     then _getNative this account
     else _getFallback this account)
    (fun error =>
       if negb (useFallback this) then
         console_warn ("Native credential retrieval failed, trying fallback: "
                       +:+ error_to_string error) ;;;
         _getFallback this account
       else ret None).

Definition delete (this : CredentialStore) (account : string) : M unit :=
  try_catch
    (if negb (useFallback this)
     then _deleteNative this account
     else _deleteFallback this account)
    (fun error =>
       if negb (useFallback this) then
         console_warn ("Native credential deletion failed, trying fallback: "
                       +:+ error_to_string error) ;;;
         _deleteFallback this account
       else throw error).

End CredentialStore.

(** ** Predicates on the state of the host *)

(** The cache directory and its two files exist. *)
Definition cache_ready (this : CredentialStore) (w : World) : Prop :=
  path_exists (cacheDir this) w = true /\
  path_exists (keyFile this) w = true /\
  path_exists (cacheFile this) w = true.

(** The mapping file, when there is one, holds an object of strings, as
    the type [Record<string, string>] of the cache has it. *)
Definition mapping_typed `{NodeLib} (this : CredentialStore) (w : World)
  : Prop :=
  forall data, files w !! cacheFile this = Some data ->
    is_Some (JSON_parse (utf8_decode data)).

(** Every path that exists stays, and every file keeps its content. *)
Definition extends (w w' : World) : Prop :=
  (forall p, path_exists p w = true -> path_exists p w' = true) /\
  (forall p d, files w !! p = Some d -> files w' !! p = Some d).

(** ** A reference implementation of [NodeLib]

    Base64 as in RFC 4648, a printer and a reader for JSON objects of
    strings, and a small authenticated cipher standing in for
    AES-256-GCM.  It shows that the contract of [NodeLib] can be met,
    and lets the methods of the class run on concrete states. *)
Module Reference.

(** *** Base64 *)

Definition sextet : Type := bool * bool * bool * bool * bool * bool.

Definition b64_alphabet : list ascii :=
  list_ascii_of_string
    "ABCDEFGHIJKLMNOPQRSTUVWXYZabcdefghijklmnopqrstuvwxyz0123456789+/".

Definition bit (b : bool) (n : nat) : nat := if b then n else 0.

Definition sextet_index (s : sextet) : nat :=
  let '(b5, b4, b3, b2, b1, b0) := s in
  bit b5 32 + bit b4 16 + bit b3 8 + bit b2 4 + bit b1 2 + bit b0 1.

Definition char_of_sextet (s : sextet) : ascii :=
  nth (sextet_index s) b64_alphabet "A"%char.

Definition all_sextets : list sextet :=
  b5 ← [false; true]; b4 ← [false; true]; b3 ← [false; true];
  b2 ← [false; true]; b1 ← [false; true]; b0 ← [false; true];
  [(b5, b4, b3, b2, b1, b0)].

Definition sextet_of_char (c : ascii) : option sextet :=
  find (fun s => Ascii.eqb (char_of_sextet s) c) all_sextets.

Definition triple_sextets (a b c : byte) : sextet * sextet * sextet * sextet :=
  let '(a0, (a1, (a2, (a3, (a4, (a5, (a6, a7))))))) := Byte.to_bits a in
  let '(b0, (b1, (b2, (b3, (b4, (b5, (b6, b7))))))) := Byte.to_bits b in
  let '(c0, (c1, (c2, (c3, (c4, (c5, (c6, c7))))))) := Byte.to_bits c in
  ((a7, a6, a5, a4, a3, a2), (a1, a0, b7, b6, b5, b4),
   (b3, b2, b1, b0, c7, c6), (c5, c4, c3, c2, c1, c0)).

Definition sextets_triple (s1 s2 s3 s4 : sextet) : byte * byte * byte :=
  let '(a7, a6, a5, a4, a3, a2) := s1 in
  let '(a1, a0, b7, b6, b5, b4) := s2 in
  let '(b3, b2, b1, b0, c7, c6) := s3 in
  let '(c5, c4, c3, c2, c1, c0) := s4 in
  (Byte.of_bits (a0, (a1, (a2, (a3, (a4, (a5, (a6, a7))))))),
   Byte.of_bits (b0, (b1, (b2, (b3, (b4, (b5, (b6, b7))))))),
   Byte.of_bits (c0, (c1, (c2, (c3, (c4, (c5, (c6, c7)))))))).

Definition pad_char : ascii := "="%char.

Fixpoint b64_encode (l : list byte) : string :=
  match l with
  | [] => EmptyString
  | [a] =>
      let '(s1, s2, _, _) := triple_sextets a x00 x00 in
      String (char_of_sextet s1) (String (char_of_sextet s2)
        (String pad_char (String pad_char EmptyString)))
  | [a; b] =>
      let '(s1, s2, s3, _) := triple_sextets a b x00 in
      String (char_of_sextet s1) (String (char_of_sextet s2)
        (String (char_of_sextet s3) (String pad_char EmptyString)))
  | a :: b :: c :: rest =>
      let '(s1, s2, s3, s4) := triple_sextets a b c in
      String (char_of_sextet s1) (String (char_of_sextet s2)
        (String (char_of_sextet s3) (String (char_of_sextet s4)
           (b64_encode rest))))
  end.

Definition zero_sextet : sextet := (false, false, false, false, false, false).

Fixpoint b64_decode (s : string) : list byte :=
  match s with
  | String c1 (String c2 (String c3 (String c4 rest))) =>
      match sextet_of_char c1, sextet_of_char c2 with
      | Some s1, Some s2 =>
          match sextet_of_char c3, sextet_of_char c4 with
          | Some s3, Some s4 =>
              let '(a, b, c) := sextets_triple s1 s2 s3 s4 in
              a :: b :: c :: b64_decode rest
          | Some s3, None =>
              let '(a, b, _) := sextets_triple s1 s2 s3 zero_sextet in [a; b]
          | None, _ =>
              let '(a, _, _) := sextets_triple s1 s2 zero_sextet zero_sextet in
              [a]
          end
      | _, _ => []
      end
  | _ => []
  end.

(** *** JSON objects whose values are strings *)

Definition backslash : ascii := "092"%char.
Definition dq : ascii := "034"%char.
Definition rbrace : ascii := "}"%char.

Fixpoint json_escape (s : string) : string :=
  match s with
  | EmptyString => EmptyString
  | String c s' =>
      if Ascii.eqb c dq || Ascii.eqb c backslash
      then String backslash (String c (json_escape s'))
      else String c (json_escape s')
  end.

Definition json_literal (s : string) : string :=
  String dq (json_escape s +:+ String dq EmptyString).

Fixpoint spaces (n : nat) : string :=
  match n with
  | 0 => EmptyString
  | S n' => String " "%char (spaces n')
  end.

Definition json_break (indent : nat) : string :=
  match indent with
  | 0 => EmptyString
  | S _ => String "010"%char (spaces indent)
  end.

Definition json_entry (indent : nat) (kv : string * string) : string :=
  json_literal kv.1 +:+
  (if Nat.eqb indent 0 then ":" else ": ") +:+ json_literal kv.2.

Fixpoint json_entries (indent : nat) (l : list (string * string)) : string :=
  match l with
  | [] => EmptyString
  | [kv] => json_break indent +:+ json_entry indent kv
  | kv :: rest =>
      json_break indent +:+ json_entry indent kv +:+ "," +:+
      json_entries indent rest
  end.

Definition json_stringify (indent : nat) (o : gmap string string) : string :=
  match map_to_list o with
  | [] => "{}"
  | l => "{" +:+ json_entries indent l +:+
         (match indent with 0 => EmptyString | S _ => String "010"%char EmptyString end)
         +:+ "}"
  end.

Definition extend (c : ascii) (r : option (list string))
  : option (list string) :=
  match r with
  | Some (x :: xs) => Some (String c x :: xs)
  | _ => None
  end.

(** The string literals of the text, in order; [inside] tells whether
    the reader is within a literal.  The text has to end with the
    closing brace. *)
Fixpoint json_scan (inside : bool) (s : string) : option (list string) :=
  match s with
  | EmptyString => None
  | String c s' =>
      if inside then
        if Ascii.eqb c dq then cons EmptyString <$> json_scan false s'
        else if Ascii.eqb c backslash then
          match s' with
          | String c2 s'' => extend c2 (json_scan true s'')
          | EmptyString => None
          end
        else extend c (json_scan true s')
      else
        if Ascii.eqb c dq then json_scan true s'
        else if Ascii.eqb c rbrace then
          match s' with EmptyString => Some [] | _ => None end
        else json_scan false s'
  end.

Fixpoint pair_up (l : list string) : option (list (string * string)) :=
  match l with
  | [] => Some []
  | k :: v :: rest => cons (k, v) <$> pair_up rest
  | _ => None
  end.

Definition json_parse (s : string) : option (gmap string string) :=
  match s with
  | String "{"%char rest =>
      l ← json_scan false rest; kvs ← pair_up l; Some (list_to_map kvs)
  | _ => None
  end.

(** *** A stand-in for AES-256-GCM

    The plaintext is masked with the bytes of the key and of the nonce,
    taken in turn; the tag has sixteen bytes and depends on the key, the
    nonce and the ciphertext. *)

Definition xor_byte (a b : byte) : byte :=
  let '(a0, (a1, (a2, (a3, (a4, (a5, (a6, a7))))))) := Byte.to_bits a in
  let '(b0, (b1, (b2, (b3, (b4, (b5, (b6, b7))))))) := Byte.to_bits b in
  Byte.of_bits (xorb a0 b0, (xorb a1 b1, (xorb a2 b2, (xorb a3 b3,
               (xorb a4 b4, (xorb a5 b5, (xorb a6 b6, xorb a7 b7))))))).

Definition fold_xor (l : list byte) : byte := foldr xor_byte x00 l.

Definition toy_tag (key iv ct : list byte) : list byte :=
  take 16 (map (xor_byte (fold_xor ct)) (key ++ iv) ++ replicate 16 x00).

(** [cur] is what is left of the key stream [ks] in the present round. *)
Fixpoint xor_stream (ks cur data : list byte) : list byte :=
  match data with
  | [] => []
  | d :: data' =>
      match cur with
      | k :: cur' => xor_byte k d :: xor_stream ks cur' data'
      | [] =>
          match ks with
          | k :: ks' => xor_byte k d :: xor_stream ks ks' data'
          | [] => d :: xor_stream ks [] data'
          end
      end
  end.

Definition toy_seal (key iv pt : list byte) : list byte * list byte :=
  let ct := xor_stream (key ++ iv) (key ++ iv) pt in
  (ct, toy_tag key iv ct).

Fixpoint bytes_eqb (l1 l2 : list byte) : bool :=
  match l1, l2 with
  | [], [] => true
  | a :: l1', b :: l2' => Byte.eqb a b && bytes_eqb l1' l2'
  | _, _ => false
  end.

Definition toy_open (key iv tag ct : list byte) : option (list byte) :=
  if bytes_eqb tag (toy_tag key iv ct)
  then Some (xor_stream (key ++ iv) (key ++ iv) ct)
  else None.

(** *** The contract *)

Lemma sextet_of_char_of_sextet s : sextet_of_char (char_of_sextet s) = Some s.
Proof.
  destruct s as [[[[[b5 b4] b3] b2] b1] b0].
  destruct b5, b4, b3, b2, b1, b0; reflexivity.
Qed.

Lemma sextet_of_pad : sextet_of_char pad_char = None.
Proof. reflexivity. Qed.

Lemma sextets_triple_sextets a b c :
  (let '(s1, s2, s3, s4) := triple_sextets a b c in
   sextets_triple s1 s2 s3 s4) = (a, b, c).
Proof.
  unfold triple_sextets, sextets_triple.
  pose proof (Byte.of_bits_to_bits a) as Ha.
  pose proof (Byte.of_bits_to_bits b) as Hb.
  pose proof (Byte.of_bits_to_bits c) as Hc.
  destruct (Byte.to_bits a) as (a0 & a1 & a2 & a3 & a4 & a5 & a6 & a7).
  destruct (Byte.to_bits b) as (b0 & b1 & b2 & b3 & b4 & b5 & b6 & b7).
  destruct (Byte.to_bits c) as (c0 & c1 & c2 & c3 & c4 & c5 & c6 & c7).
  by rewrite Ha, Hb, Hc.
Qed.

Lemma list_ind3 {A} (P : list A -> Prop) :
  P [] -> (forall a, P [a]) -> (forall a b, P [a; b]) ->
  (forall a b c l, P l -> P (a :: b :: c :: l)) ->
  forall l, P l.
Proof.
  intros H0 H1 H2 H3 l.
  assert (P l /\ (forall a, P (a :: l)) /\ (forall a b, P (a :: b :: l)))
    as [? _]; [|done].
  induction l as [|x l (IH0 & IH1 & IH2)]; [done|].
  split; [apply IH1 | split; [intros a; apply IH2 | intros a b; apply H3, IH0]].
Qed.

Lemma sextets_triple_fst s1 s2 s3 s4 s3' s4' :
  (sextets_triple s1 s2 s3 s4).1.1 = (sextets_triple s1 s2 s3' s4').1.1.
Proof.
  destruct s1 as [[[[[? ?] ?] ?] ?] ?], s2 as [[[[[? ?] ?] ?] ?] ?],
    s3 as [[[[[? ?] ?] ?] ?] ?], s4 as [[[[[? ?] ?] ?] ?] ?],
    s3' as [[[[[? ?] ?] ?] ?] ?], s4' as [[[[[? ?] ?] ?] ?] ?].
  reflexivity.
Qed.

Lemma sextets_triple_snd s1 s2 s3 s4 s4' :
  (sextets_triple s1 s2 s3 s4).1.2 = (sextets_triple s1 s2 s3 s4').1.2.
Proof.
  destruct s1 as [[[[[? ?] ?] ?] ?] ?], s2 as [[[[[? ?] ?] ?] ?] ?],
    s3 as [[[[[? ?] ?] ?] ?] ?], s4 as [[[[[? ?] ?] ?] ?] ?],
    s4' as [[[[[? ?] ?] ?] ?] ?].
  reflexivity.
Qed.

Lemma b64_decode_encode l : b64_decode (b64_encode l) = l.
Proof.
  induction l as [|a|a b|a b c l IH] using list_ind3.
  - reflexivity.
  - cbn [b64_encode]. pose proof (sextets_triple_sextets a x00 x00) as E.
    destruct (triple_sextets a x00 x00) as [[[s1 s2] s3] s4].
    cbn [b64_decode].
    rewrite !sextet_of_char_of_sextet, sextet_of_pad.
    pose proof (sextets_triple_fst s1 s2 s3 s4 zero_sextet zero_sextet) as F.
    rewrite E in F.
    destruct (sextets_triple s1 s2 zero_sextet zero_sextet) as [[x y] z].
    simpl in F. by subst.
  - cbn [b64_encode]. pose proof (sextets_triple_sextets a b x00) as E.
    destruct (triple_sextets a b x00) as [[[s1 s2] s3] s4].
    cbn [b64_decode].
    rewrite !sextet_of_char_of_sextet, sextet_of_pad.
    pose proof (sextets_triple_fst s1 s2 s3 s4 s3 zero_sextet) as F.
    pose proof (sextets_triple_snd s1 s2 s3 s4 zero_sextet) as G.
    rewrite E in F, G.
    destruct (sextets_triple s1 s2 s3 zero_sextet) as [[x y] z].
    simpl in F, G. by subst.
  - cbn [b64_encode]. pose proof (sextets_triple_sextets a b c) as E.
    destruct (triple_sextets a b c) as [[[s1 s2] s3] s4].
    cbn [b64_decode].
    rewrite !sextet_of_char_of_sextet, E, IH. reflexivity.
Qed.

Lemma b64_encode_nil : b64_encode [] = EmptyString.
Proof. reflexivity. Qed.

Lemma bytes_eqb_refl l : bytes_eqb l l = true.
Proof.
  induction l as [|a l IH]; [done|]. simpl.
  by rewrite (Byte.byte_dec_lb (eq_refl a)), IH.
Qed.

Lemma xor_byte_involutive m b : xor_byte m (xor_byte m b) = b.
Proof.
  unfold xor_byte.
  pose proof (Byte.of_bits_to_bits b) as Hb.
  destruct (Byte.to_bits m) as (m0 & m1 & m2 & m3 & m4 & m5 & m6 & m7).
  destruct (Byte.to_bits b) as (b0 & b1 & b2 & b3 & b4 & b5 & b6 & b7).
  rewrite Byte.to_bits_of_bits.
  by rewrite <- !xorb_assoc, !xorb_nilpotent, !xorb_false_l.
Qed.

Lemma xor_stream_involutive ks cur data :
  xor_stream ks cur (xor_stream ks cur data) = data.
Proof.
  revert cur. induction data as [|d data IH]; intros cur; [done|].
  destruct cur as [|k cur']; [destruct ks as [|k ks']|];
    cbn [xor_stream]; by rewrite ?xor_byte_involutive, IH.
Qed.

Lemma toy_tag_length key iv pt : length (toy_seal key iv pt).2 = 16.
Proof.
  unfold toy_seal, toy_tag. simpl snd.
  rewrite length_take, length_app.
  apply Nat.min_l. cbn [length]. lia.
Qed.

Lemma toy_open_seal key iv pt :
  toy_open key iv (toy_seal key iv pt).2 (toy_seal key iv pt).1 = Some pt.
Proof.
  unfold toy_open, toy_seal. simpl fst. simpl snd.
  rewrite bytes_eqb_refl. f_equal. apply xor_stream_involutive.
Qed.

Lemma append_cons c s t : String c s +:+ t = String c (s +:+ t).
Proof. reflexivity. Qed.

Lemma append_nil t : EmptyString +:+ t = t.
Proof. reflexivity. Qed.

Lemma append_assoc (a b c : string) : (a +:+ b) +:+ c = a +:+ (b +:+ c).
Proof.
  induction a as [|x a IH]; [done|]. by rewrite !append_cons, IH.
Qed.

(** A literal is read back, whatever follows it. *)
Lemma json_scan_literal s rest :
  json_scan true (json_escape s +:+ String dq rest)
  = cons s <$> json_scan false rest.
Proof.
  induction s as [|c s IH].
  - cbn [json_escape]. rewrite append_nil. cbn [json_scan].
    by rewrite Ascii.eqb_refl.
  - cbn [json_escape].
    destruct (Ascii.eqb c dq || Ascii.eqb c backslash) eqn:E.
    + rewrite !append_cons. cbn [json_scan]. rewrite IH.
      change (Ascii.eqb backslash dq) with false.
      rewrite Ascii.eqb_refl. cbn match.
      by destruct (json_scan false rest).
    + apply orb_false_elim in E as [E1 E2].
      rewrite append_cons. cbn [json_scan]. rewrite E1, E2, IH.
      by destruct (json_scan false rest).
Qed.

Definition plain (c : ascii) : bool :=
  negb (Ascii.eqb c dq) && negb (Ascii.eqb c rbrace).

Fixpoint all_plain (s : string) : bool :=
  match s with
  | EmptyString => true
  | String c s' => plain c && all_plain s'
  end.

Lemma json_scan_plain p rest :
  all_plain p = true -> json_scan false (p +:+ rest) = json_scan false rest.
Proof.
  induction p as [|c p IH]; [done|]. cbn [all_plain].
  intros [[E1 E2]%andb_true_iff E]%andb_true_iff.
  apply negb_true_iff in E1, E2.
  rewrite append_cons. cbn [json_scan]. rewrite E1, E2. auto.
Qed.

Lemma all_plain_spaces n : all_plain (spaces n) = true.
Proof. induction n; [done|]. cbn [spaces all_plain]. by rewrite IHn. Qed.

Lemma all_plain_break indent : all_plain (json_break indent) = true.
Proof.
  destruct indent; [done|]. cbn [json_break all_plain].
  by rewrite all_plain_spaces.
Qed.

Lemma json_scan_quoted s rest :
  json_scan false (json_literal s +:+ rest) = cons s <$> json_scan false rest.
Proof.
  unfold json_literal. rewrite append_cons. cbn [json_scan].
  rewrite Ascii.eqb_refl, append_assoc, append_cons, append_nil.
  apply json_scan_literal.
Qed.

Lemma json_scan_entry indent kv rest :
  json_scan false (json_break indent +:+ json_entry indent kv +:+ rest)
  = (fun l => kv.1 :: kv.2 :: l) <$> json_scan false rest.
Proof.
  rewrite json_scan_plain by apply all_plain_break.
  unfold json_entry. rewrite !append_assoc.
  rewrite json_scan_quoted.
  rewrite json_scan_plain by by destruct (Nat.eqb indent 0).
  rewrite json_scan_quoted.
  by destruct (json_scan false rest).
Qed.

Fixpoint flatten (l : list (string * string)) : list string :=
  match l with
  | [] => []
  | kv :: l' => kv.1 :: kv.2 :: flatten l'
  end.

Lemma json_scan_close tail :
  all_plain tail = true -> json_scan false (tail +:+ "}") = Some [].
Proof. intros Ht. by rewrite json_scan_plain. Qed.

Lemma json_scan_entries indent l tail :
  l <> [] -> all_plain tail = true ->
  json_scan false (json_entries indent l +:+ tail +:+ "}")
  = Some (flatten l).
Proof.
  intros Hl Ht. induction l as [|kv l IH]; [done|].
  destruct l as [|kv' l].
  - cbn [json_entries]. rewrite !append_assoc, json_scan_entry.
    by rewrite json_scan_close.
  - change (json_entries indent (kv :: kv' :: l))
      with (json_break indent +:+ json_entry indent kv +:+ "," +:+
            json_entries indent (kv' :: l)).
    rewrite !append_assoc, json_scan_entry.
    rewrite (json_scan_plain ","); [|done].
    by rewrite IH.
Qed.

Lemma pair_up_flatten l : pair_up (flatten l) = Some l.
Proof.
  induction l as [|[k v] l IH]; [done|].
  cbn [flatten pair_up fst snd]. by rewrite IH.
Qed.

Lemma json_parse_stringify indent o :
  json_parse (json_stringify indent o) = Some o.
Proof.
  unfold json_stringify.
  destruct (map_to_list o) as [|kv l] eqn:E.
  - apply map_to_list_empty_iff in E as ->. reflexivity.
  - rewrite append_cons, append_nil. unfold json_parse.
    rewrite json_scan_entries; [| done | by destruct indent].
    cbn [mbind option_bind]. rewrite pair_up_flatten. cbn [mbind option_bind].
    by rewrite <- E, list_to_map_to_list.
Qed.

(** *** Text and paths

    UTF-8 on well-formed text, which a [string] already holds encoded,
    and [path.join] on segments that are already normalised, with the
    separator of POSIX. *)
Definition text_bytes (s : string) : list byte := list_byte_of_string s.
Definition bytes_text (b : list byte) : string := string_of_list_byte b.

Definition posix_join (a b : string) : string :=
  if String.eqb a "." then b else a +:+ "/" +:+ b.

Lemma bytes_text_bytes s : bytes_text (text_bytes s) = s.
Proof. apply string_of_list_byte_of_string. Qed.

Lemma json_file_round_trip indent o :
  json_parse (bytes_text (text_bytes (json_stringify indent o))) = Some o.
Proof. rewrite bytes_text_bytes. apply json_parse_stringify. Qed.

Lemma length_append (a b : string) :
  String.length (a +:+ b) = String.length a + String.length b.
Proof.
  induction a as [|c a IH]; [done|].
  change (String c a +:+ b) with (String c (a +:+ b)). simpl. by rewrite IH.
Qed.

Lemma append_inj d a b : d +:+ a = d +:+ b -> a = b.
Proof.
  induction d as [|c d IH]; [done|].
  change (String c d +:+ a) with (String c (d +:+ a)).
  change (String c d +:+ b) with (String c (d +:+ b)).
  intros E. injection E as E. auto.
Qed.

Lemma posix_join_files d :
  posix_join d "credentials.json" <> posix_join d "key.bin".
Proof.
  unfold posix_join. destruct (String.eqb d "."); [discriminate|].
  intros E. apply append_inj in E. discriminate.
Qed.

Lemma posix_join_below d x :
  x <> "." -> posix_join d x <> d.
Proof.
  unfold posix_join. intros Hx. destruct (String.eqb_spec d ".") as [->|_].
  - exact Hx.
  - intros E. apply (f_equal String.length) in E.
    rewrite !length_append in E. simpl in E. lia.
Qed.

Lemma posix_join_mapping d : posix_join d "credentials.json" <> d.
Proof. by apply posix_join_below. Qed.

Lemma posix_join_key d : posix_join d "key.bin" <> d.
Proof. by apply posix_join_below. Qed.

Definition lib : NodeLib := {|
  utf8_encode := text_bytes;
  utf8_decode := bytes_text;
  path_join := posix_join;
  base64_encode := b64_encode;
  base64_decode := b64_decode;
  gcm_seal := toy_seal;
  gcm_open := toy_open;
  JSON_stringify := json_stringify;
  JSON_parse := json_parse;
  base64_decode_encode := b64_decode_encode;
  base64_encode_nil := b64_encode_nil;
  gcm_tag_length := toy_tag_length;
  gcm_open_seal := fun key iv pt _ _ => toy_open_seal key iv pt;
  JSON_parse_stringify := json_file_round_trip;
  path_join_files := posix_join_files;
  path_join_mapping := posix_join_mapping;
  path_join_key := posix_join_key
|}.

End Reference.


(** ** Concrete hosts and stores *)
Module Scenario.
#[local] Existing Instance Reference.lib.

Definition counter_rng (n : nat) : byte :=
  default x00 (Byte.of_nat ((n * 73 + 41) mod 256)).

(** No external command can be run: each call fails. *)
Definition no_tool (log : list ExecCall) (call : ExecCall)
    (fs : gmap string (list byte))
  : option string * gmap string (list byte) := (None, fs).

(** Every external command succeeds and prints nothing. *)
Definition quiet_tool (log : list ExecCall) (call : ExecCall)
    (fs : gmap string (list byte))
  : option string * gmap string (list byte) := (Some EmptyString, fs).

(** A [secret-tool] holding one entry: [store] reads the secret from its
    standard input, [lookup] prints the secret stored last, and fails
    when there is none. *)
Definition secret_tool (log : list ExecCall) (call : ExecCall)
    (fs : gmap string (list byte))
  : option string * gmap string (list byte) :=
  match exec_input call with
  | Some _ => (Some EmptyString, fs)
  | None =>
      if String.prefix "secret-tool lookup" (exec_cmd call)
      then (last (omap exec_input log), fs)
      else (Some EmptyString, fs)
  end.

Definition host (plat : string)
    (tool : list ExecCall -> ExecCall -> gmap string (list byte) ->
            option string * gmap string (list byte)) : World :=
  mkWorld plat "/home/u" None ∅ ∅ ∅ true None counter_rng 0 tool [] []
    (fun _ => None) "ENOSPC".

Definition forced : CredentialStore :=
  constructor "svc" (Some true) (host "linux" no_tool).

Definition native : CredentialStore :=
  constructor "svc" None (host "linux" no_tool).

(** A host whose cache holds one credential, written by the store. *)
Definition stored : World :=
  (save forced "bob" "s3cret" (host "linux" no_tool)).2.

(** The same host after the mapping file has been cut to nothing. *)
Definition truncated : World :=
  with_files (<[cacheFile forced := []]> (files stored)) stored.

(** The same host with room for ten more bytes. *)
Definition nearly_full : World := with_disk_free (Some 10) stored.

End Scenario.

(** ** Properties of the effects and of the cache *)

Lemma bind_Return_inv {A B} (m : M A) (k : A -> M B) w b w' :
  bind m k w = (Return b, w') ->
  exists a w1, m w = (Return a, w1) /\ k a w1 = (Return b, w').
Proof.
  unfold bind. destruct (m w) as [[a|e] w1]; intros E; [eauto | discriminate].
Qed.

Lemma bind_Return {A B} (m : M A) (k : A -> M B) w a w1 :
  m w = (Return a, w1) -> bind m k w = k a w1.
Proof. unfold bind. intros ->. reflexivity. Qed.

Lemma bind_Throw {A B} (m : M A) (k : A -> M B) w e w1 :
  m w = (Throw e, w1) -> bind m k w = (Throw e, w1).
Proof. unfold bind. intros ->. reflexivity. Qed.

Section Properties.
Context `{lib : NodeLib}.

Lemma constructor_files_differ svc fb w0 :
  cacheFile (constructor svc fb w0) <> keyFile (constructor svc fb w0).
Proof. apply path_join_files. Qed.

Lemma _ensureCache_ready this w :
  cache_ready this w -> _ensureCache this w = (Return tt, w).
Proof.
  intros (Hd & Hk & Hc). unfold _ensureCache, bind, existsSync, ret.
  rewrite Hd. simpl. rewrite Hk. simpl. rewrite Hc. reflexivity.
Qed.


Lemma extends_refl w : extends w w.
Proof. split; auto. Qed.

Lemma extends_trans w1 w2 w3 : extends w1 w2 -> extends w2 w3 -> extends w1 w3.
Proof. intros [A B] [C D]. split; auto. Qed.

Lemma path_exists_file p w d : files w !! p = Some d -> path_exists p w = true.
Proof.
  intros E. unfold path_exists. rewrite E.
  rewrite (bool_decide_eq_true_2 (is_Some (Some d))); [|eauto].
  apply orb_true_r.
Qed.

Lemma path_exists_false_file p w : path_exists p w = false -> files w !! p = None.
Proof.
  intros E. destruct (files w !! p) eqn:F; [|done].
  apply path_exists_file in F. congruence.
Qed.

Lemma mkdirSync_Return p w w' :
  mkdirSync p w = (Return tt, w') -> extends w w' /\ path_exists p w' = true.
Proof.
  unfold mkdirSync. case_bool_decide as D.
  { intros [= <-]. split; [apply extends_refl|]. unfold path_exists.
    by rewrite (bool_decide_eq_true_2 _ D). }
  destruct (write_refused w p); [discriminate|].
  destruct (files w !! p) eqn:F; [discriminate|].
  intros [= <-]. split; [split|].
  - intros q. unfold path_exists. simpl. intros [H|H]%orb_true_iff.
    + apply bool_decide_eq_true_1 in H.
      rewrite (bool_decide_eq_true_2 (q ∈ {[p]} ∪ dirs w)); [done | set_solver].
    + rewrite H. apply orb_true_r.
  - auto.
  - unfold path_exists. simpl.
    rewrite (bool_decide_eq_true_2 (p ∈ {[p]} ∪ dirs w)); [done | set_solver].
Qed.

Lemma writeFileSync_Return p data w w' :
  writeFileSync p data w = (Return tt, w') ->
  files w' = <[p := data]> (files w) /\ dirs w' = dirs w.
Proof.
  unfold writeFileSync. case_bool_decide; [discriminate|].
  destruct (write_refused w p); [discriminate|].
  destruct (disk_free w) as [n|].
  - cbv zeta. destruct (Nat.leb (length data) _); [|discriminate].
    intros [= <-]. done.
  - intros [= <-]. done.
Qed.

Lemma writeFileSync_fresh p data w w' :
  writeFileSync p data w = (Return tt, w') ->
  path_exists p w = false ->
  extends w w' /\ files w' !! p = Some data.
Proof.
  intros [Hf Hd]%writeFileSync_Return Hn. split; [split|].
  - intros q. unfold path_exists. rewrite Hf, Hd.
    intros [H|H]%orb_true_iff; [by rewrite H|].
    apply bool_decide_eq_true_1 in H.
    rewrite (bool_decide_eq_true_2 (is_Some (<[p:=data]> (files w) !! q))).
    + apply orb_true_r.
    + rewrite lookup_insert. case_decide; eauto.
  - intros q d E. rewrite Hf. rewrite lookup_insert_ne; [done|].
    intros ->. apply path_exists_false_file in Hn. congruence.
  - rewrite Hf. apply lookup_insert_eq.
Qed.

Lemma chmodSync_extends p mode w r w' :
  chmodSync p mode w = (r, w') -> files w' = files w /\ dirs w' = dirs w.
Proof.
  unfold chmodSync. destruct (negb (path_exists p w)); [by intros [= <- <-]|].
  destruct (negb (chmod_supported w)); by intros [= <- <-].
Qed.

Lemma same_fs_extends w w' :
  files w' = files w -> dirs w' = dirs w -> extends w w'.
Proof.
  intros Hf Hd. split.
  - intros p. unfold path_exists. by rewrite Hf, Hd.
  - intros p d. by rewrite Hf.
Qed.

(** The permission step of [_ensureCache]: it never throws and leaves
    the files and directories as they are. *)
Lemma chmod_step p mode msg w :
  exists w', try_catch (chmodSync p mode)
               (fun error => console_warn (msg +:+ error_to_string error)) w
             = (Return tt, w') /\ files w' = files w /\ dirs w' = dirs w.
Proof.
  unfold try_catch. destruct (chmodSync p mode w) as [[[]|e] w1] eqn:E;
    apply chmodSync_extends in E as [Hf Hd].
  - eauto.
  - eexists. split; [reflexivity|]. simpl. done.
Qed.


Lemma existsSync_eq p w r w' :
  existsSync p w = (r, w') -> r = Return (path_exists p w) /\ w' = w.
Proof. by intros [= <- <-]. Qed.

Lemma ret_eq {A} (a : A) w r w' : ret a w = (r, w') -> r = Return a /\ w' = w.
Proof. by intros [= <- <-]. Qed.

Lemma randomBytes_eq n w :
  randomBytes n w = (Return (next_random n w),
                     with_rng_pos (rng_pos w + n) w).
Proof. reflexivity. Qed.

Lemma _ensureCache_Return this w w' :
  _ensureCache this w = (Return tt, w') -> extends w w' /\ cache_ready this w'.
Proof.
  unfold _ensureCache. intros H.
  apply bind_Return_inv in H as (e1 & w1 & H1 & H).
  apply existsSync_eq in H1 as [[= ->] ->].
  apply bind_Return_inv in H as ([] & w2 & H2 & H).
  assert (extends w w2 /\ path_exists (cacheDir this) w2 = true) as [X2 D2].
  { destruct (path_exists (cacheDir this) w) eqn:E; simpl in H2.
    - apply ret_eq in H2 as [_ ->]. split; [apply extends_refl | done].
    - by apply mkdirSync_Return in H2. }
  clear H2.
  apply bind_Return_inv in H as (e3 & w3 & H3 & H).
  apply existsSync_eq in H3 as [[= ->] ->].
  apply bind_Return_inv in H as ([] & w4 & H4 & H).
  assert (extends w2 w4 /\ path_exists (keyFile this) w4 = true) as [X4 K4].
  { destruct (path_exists (keyFile this) w2) eqn:E; simpl in H4.
    - apply ret_eq in H4 as [_ ->]. split; [apply extends_refl | done].
    - apply bind_Return_inv in H4 as (key & wa & Ha & H4).
      rewrite randomBytes_eq in Ha. injection Ha as <- <-.
      apply bind_Return_inv in H4 as ([] & wb & Hb & H4).
      apply writeFileSync_fresh in Hb as [Xb Fb]; [|exact E].
      destruct (chmod_step (keyFile this) mode_600
                  "Could not set permissions on key file: " wb)
        as (wc & Hc & Hf & Hd).
      rewrite Hc in H4. injection H4 as <-.
      assert (extends wb wc) as Xc by by apply same_fs_extends.
      split.
      + eapply extends_trans; [|exact Xc].
        eapply extends_trans; [|exact Xb].
        by apply same_fs_extends.
      + apply Xc. by eapply path_exists_file. }
  clear H4.
  apply bind_Return_inv in H as (e5 & w5 & H5 & H).
  apply existsSync_eq in H5 as [[= ->] ->].
  assert (extends w4 w' /\ path_exists (cacheFile this) w' = true) as [X6 C6].
  { destruct (path_exists (cacheFile this) w4) eqn:E; simpl in H.
    - apply ret_eq in H as [_ ->]. split; [apply extends_refl | done].
    - apply bind_Return_inv in H as ([] & wb & Hb & H).
      apply writeFileSync_fresh in Hb as [Xb Fb]; [|exact E].
      destruct (chmod_step (cacheFile this) mode_600
                  "Could not set permissions on cache file: " wb)
        as (wc & Hc & Hf & Hd).
      rewrite Hc in H. injection H as <-.
      assert (extends wb wc) as Xc by by apply same_fs_extends.
      split.
      + by eapply extends_trans.
      + apply Xc. by eapply path_exists_file. }
  split.
  - eapply extends_trans; [exact X2|]. by eapply extends_trans.
  - split; [|split]; [apply X6, X4, D2 | apply X6, K4 | exact C6].
Qed.


Lemma readFileSync_Return p w data w' :
  readFileSync p w = (Return data, w') -> files w !! p = Some data /\ w' = w.
Proof.
  unfold readFileSync. destruct (files w !! p); [|discriminate].
  by intros [= <- <-].
Qed.

Lemma readFileSync_file p w data :
  files w !! p = Some data -> readFileSync p w = (Return data, w).
Proof. unfold readFileSync. by intros ->. Qed.

Lemma _readCache_Return this w c w' :
  _readCache this w = (Return c, w') ->
  extends w w' /\ cache_ready this w' /\
  exists data, files w' !! cacheFile this = Some data /\
               JSON_parse (utf8_decode data) = Some c.
Proof.
  unfold _readCache. intros H.
  apply bind_Return_inv in H as ([] & w1 & H1 & H).
  apply _ensureCache_Return in H1 as [X R].
  apply bind_Return_inv in H as (data & w2 & H2 & H).
  apply readFileSync_Return in H2 as [F ->].
  destruct (JSON_parse (utf8_decode data)) as [o|] eqn:P; [|discriminate].
  apply ret_eq in H as [[= ->] ->]. eauto 6.
Qed.

Lemma _readCache_ready this w data c :
  cache_ready this w ->
  files w !! cacheFile this = Some data ->
  JSON_parse (utf8_decode data) = Some c ->
  _readCache this w = (Return c, w).
Proof.
  intros R F P. unfold _readCache.
  rewrite (bind_Return _ _ _ _ _ (_ensureCache_ready this w R)).
  rewrite (bind_Return _ _ _ _ _ (readFileSync_file _ _ _ F)).
  by rewrite P.
Qed.

Lemma _writeCache_ready this obj w :
  cache_ready this w ->
  _writeCache this obj w
  = writeFileSync (cacheFile this) (utf8_encode (JSON_stringify 2 obj)) w.
Proof.
  intros R. unfold _writeCache.
  by rewrite (bind_Return _ _ _ _ _ (_ensureCache_ready this w R)).
Qed.

Lemma aes256gcm_encrypt_Return key iv pt w sealed w' :
  aes256gcm_encrypt key iv pt w = (Return sealed, w') ->
  length key = 32 /\ sealed = gcm_seal key iv pt /\ w' = w.
Proof.
  unfold aes256gcm_encrypt. destruct (Nat.eqb (length key) 32) eqn:E; simpl.
  - apply Nat.eqb_eq in E. by intros [= <- <-].
  - discriminate.
Qed.


Arguments next_random : simpl never.

Lemma length_next_random n w : length (next_random n w) = n.
Proof. unfold next_random. by rewrite length_map, length_seq. Qed.

#[local] Opaque next_random.

Lemma _encrypt_Return this text w blob w' :
  _encrypt this text w = (Return blob, w') ->
  exists key,
    files w !! keyFile this = Some key /\ length key = 32 /\
    w' = with_rng_pos (rng_pos w + 12) w /\
    blob = base64_encode
             (next_random 12 w ++
              (gcm_seal key (next_random 12 w) (utf8_encode text)).2 ++
              (gcm_seal key (next_random 12 w) (utf8_encode text)).1).
Proof.
  unfold _encrypt. intros H.
  apply bind_Return_inv in H as (key & w1 & H1 & H).
  apply readFileSync_Return in H1 as [F ->].
  apply bind_Return_inv in H as (iv & w2 & H2 & H).
  rewrite randomBytes_eq in H2. injection H2 as <- <-.
  apply bind_Return_inv in H as (sealed & w3 & H3 & H).
  apply aes256gcm_encrypt_Return in H3 as (L & -> & ->).
  apply ret_eq in H as [[= ->] ->]. eauto.
Qed.

Lemma slice_layout (iv tag enc : list byte) :
  length iv = 12 -> length tag = 16 ->
  slice 0 12 (iv ++ tag ++ enc) = iv /\
  slice 12 28 (iv ++ tag ++ enc) = tag /\
  slice_from 28 (iv ++ tag ++ enc) = enc.
Proof.
  intros Li Lt. unfold slice, slice_from. split; [|split].
  - rewrite drop_0. change (12 - 0) with 12. by rewrite take_app_length'.
  - rewrite drop_app_length' by done. change (28 - 12) with 16.
    by rewrite take_app_length'.
  - rewrite app_assoc. rewrite drop_app_length'; [done|].
    rewrite length_app. lia.
Qed.

Lemma _decrypt_sealed this key iv tag enc pt w :
  files w !! keyFile this = Some key -> length key = 32 ->
  length iv = 12 -> length tag = 16 ->
  gcm_open key iv tag enc = Some pt ->
  _decrypt this (JsString (base64_encode (iv ++ tag ++ enc))) w
  = (Return (utf8_decode pt), w).
Proof.
  intros F Lk Li Lt O. unfold _decrypt.
  rewrite (bind_Return _ _ _ _ _ (readFileSync_file _ _ _ F)).
  unfold bind at 1. unfold ret at 1.
  rewrite base64_decode_encode.
  destruct (slice_layout iv tag enc Li Lt) as (-> & -> & ->).
  unfold aes256gcm_decrypt, bind. rewrite Lk. simpl. by rewrite O.
Qed.


Lemma path_exists_same_fs q w w' :
  files w' = files w -> dirs w' = dirs w -> path_exists q w' = path_exists q w.
Proof. intros Hf Hd. unfold path_exists. by rewrite Hf, Hd. Qed.

Lemma path_exists_written q p d w w' :
  files w' = <[p := d]> (files w) -> dirs w' = dirs w ->
  path_exists q w = true -> path_exists q w' = true.
Proof.
  intros Hf Hd. unfold path_exists. rewrite Hf, Hd.
  intros [H|H]%orb_true_iff; [by rewrite H|].
  apply bool_decide_eq_true_1 in H.
  rewrite (bool_decide_eq_true_2 (is_Some (<[p:=d]> (files w) !! q))).
  - apply orb_true_r.
  - rewrite lookup_insert. case_decide; eauto.
Qed.

Lemma cache_ready_same_fs this w w' :
  files w' = files w -> dirs w' = dirs w ->
  cache_ready this w -> cache_ready this w'.
Proof.
  intros Hf Hd (A & B & C). unfold cache_ready.
  by rewrite !(path_exists_same_fs _ w w').
Qed.

Lemma cache_ready_written this p d w w' :
  files w' = <[p := d]> (files w) -> dirs w' = dirs w ->
  cache_ready this w -> cache_ready this w'.
Proof.
  intros Hf Hd (A & B & C).
  repeat split; eapply path_exists_written; eauto.
Qed.

Lemma base64_encode_nonempty (b : list byte) :
  b <> [] -> base64_encode b <> EmptyString.
Proof.
  intros Hb E. apply Hb.
  rewrite <- (base64_decode_encode b), E, <- base64_encode_nil.
  apply base64_decode_encode.
Qed.

Lemma obj_get_set_eq (o : gmap string string) k v :
  k <> "__proto__" -> obj_get (obj_set o k v) k = JsString v.
Proof.
  intros Hk. unfold obj_set, obj_get.
  rewrite (bool_decide_eq_false_2 _ Hk). simpl.
  by rewrite lookup_insert_eq.
Qed.

Lemma obj_set_lookup_ne (o : gmap string string) k v j :
  k <> j -> obj_set o k v !! j = o !! j.
Proof.
  intros Hk. unfold obj_set.
  destruct (bool_decide (k = "__proto__") && bool_decide (o !! k = None));
    [done|]. by rewrite lookup_insert_ne.
Qed.

Lemma _decrypt_sealed_blob this key text w0 w :
  files w !! keyFile this = Some key -> length key = 32 ->
  _decrypt this (JsString (sealed_blob key text w0)) w
  = (Return (utf8_decode (utf8_encode text)), w).
Proof.
  intros F L. unfold sealed_blob.
  rewrite (_decrypt_sealed this key _ _ _ (utf8_encode text) w F L).
  - done.
  - apply length_next_random.
  - apply gcm_tag_length.
  - apply gcm_open_seal; [done | apply length_next_random].
Qed.

Lemma sealed_blob_truthy key text w :
  truthy (JsString (sealed_blob key text w)) = true.
Proof.
  simpl. apply negb_true_iff. apply String.eqb_neq.
  apply base64_encode_nonempty. intros E.
  apply (f_equal length) in E. rewrite length_app, length_next_random in E.
  simpl in E. lia.
Qed.

Lemma _readCache_written this c w :
  cache_ready this w ->
  files w !! cacheFile this = Some (utf8_encode (JSON_stringify 2 c)) ->
  _readCache this w = (Return c, w).
Proof.
  intros R F. eapply _readCache_ready; [done | exact F |].
  apply JSON_parse_stringify.
Qed.

Lemma _saveFallback_Return this account password w w1 :
  _saveFallback this account password w = (Return tt, w1) ->
  exists c0 wa key,
    _readCache this w = (Return c0, wa) /\
    files wa !! keyFile this = Some key /\ length key = 32 /\
    cache_ready this w1 /\
    (cacheFile this <> keyFile this -> files w1 !! keyFile this = Some key) /\
    files w1 !! cacheFile this
    = Some (utf8_encode
              (JSON_stringify 2
                 (obj_set c0 account (sealed_blob key password wa)))).
Proof.
  intros H. unfold _saveFallback in H.
  apply bind_Return_inv in H as (c0 & wa & Hr & H).
  apply bind_Return_inv in H as (blob & wb & He & H).
  pose proof (_readCache_Return _ _ _ _ Hr) as (_ & Ra & _).
  apply _encrypt_Return in He as (key & Fk & Lk & -> & ->).
  assert (cache_ready this (with_rng_pos (rng_pos wa + 12) wa)) as Rb
    by by apply (cache_ready_same_fs this wa).
  rewrite (_writeCache_ready _ _ _ Rb) in H.
  apply writeFileSync_Return in H as [Hf Hd]. simpl in Hf, Hd.
  exists c0, wa, key. repeat split; try done.
  - eapply path_exists_written; eauto. apply Ra.
  - eapply path_exists_written; eauto. apply Ra.
  - eapply path_exists_written; eauto. apply Ra.
  - intros Hne. rewrite Hf. by rewrite lookup_insert_ne.
  - rewrite Hf. by rewrite lookup_insert_eq.
Qed.

Lemma _deleteFallback_Return this account w w1 :
  _deleteFallback this account w = (Return tt, w1) ->
  exists c0 wa,
    _readCache this w = (Return c0, wa) /\
    cache_ready this w1 /\
    files w1 !! cacheFile this
    = Some (utf8_encode (JSON_stringify 2 (obj_delete c0 account))).
Proof.
  intros H. unfold _deleteFallback in H.
  apply bind_Return_inv in H as (c0 & wa & Hr & H).
  pose proof (_readCache_Return _ _ _ _ Hr) as (_ & Ra & _).
  rewrite (_writeCache_ready _ _ _ Ra) in H.
  apply writeFileSync_Return in H as [Hf Hd].
  exists c0, wa. split; [done|]. split.
  - by eapply cache_ready_written.
  - rewrite Hf. by rewrite lookup_insert_eq.
Qed.

Lemma _getFallback_stored this account key text w0 c w :
  cache_ready this w ->
  files w !! keyFile this = Some key -> length key = 32 ->
  files w !! cacheFile this = Some (utf8_encode (JSON_stringify 2 c)) ->
  obj_get c account = JsString (sealed_blob key text w0) ->
  _getFallback this account w
  = (Return (Some (utf8_decode (utf8_encode text))), w).
Proof.
  intros R Fk Lk Fc G. unfold _getFallback.
  rewrite (bind_Return _ _ _ c w
             (_readCache_ready this w _ c R Fc ltac:(
                apply JSON_parse_stringify))).
  rewrite G, sealed_blob_truthy. simpl.
  unfold try_catch.
  rewrite (bind_Return _ _ _ _ _
             (_decrypt_sealed_blob this key text w0 w Fk Lk)).
  reflexivity.
Qed.

Lemma fallback_roundtrip this account password w w1 :
  cacheFile this <> keyFile this ->
  account <> "__proto__" ->
  _saveFallback this account password w = (Return tt, w1) ->
  _getFallback this account w1
  = (Return (Some (utf8_decode (utf8_encode password))), w1).
Proof.
  intros Hne Ha H.
  apply _saveFallback_Return in H as (c0 & wa & key & _ & _ & Lk & R & Fk & Fc).
  eapply _getFallback_stored; eauto.
  by apply obj_get_set_eq.
Qed.


(** *** The facade of a store with fallback forced *)

Lemma save_forced this account password w :
  useFallback this = true ->
  save this account password w = _saveFallback this account password w.
Proof.
  intros U. unfold save, try_catch. rewrite U. simpl.
  by destruct (_saveFallback this account password w) as [[|] ?].
Qed.

Lemma delete_forced this account w :
  useFallback this = true ->
  delete this account w = _deleteFallback this account w.
Proof.
  intros U. unfold delete, try_catch. rewrite U. simpl.
  by destruct (_deleteFallback this account w) as [[|] ?].
Qed.

Lemma get_forced this account w :
  useFallback this = true ->
  get this account w
  = match _getFallback this account w with
    | (Throw _, w') => (Return None, w')
    | r => r
    end.
Proof.
  intros U. unfold get, try_catch. rewrite U. simpl.
  by destruct (_getFallback this account w) as [[|] ?].
Qed.

(** *** What else the cache operations can do *)

Lemma _encrypt_fs this text w r w' :
  _encrypt this text w = (r, w') -> files w' = files w /\ dirs w' = dirs w.
Proof.
  unfold _encrypt, bind, readFileSync, randomBytes, aes256gcm_encrypt,
    ret, throw.
  destruct (files w !! keyFile this) as [key|]; [|by intros [= <- <-]].
  destruct (negb (Nat.eqb (length key) 32)); by intros [= <- <-].
Qed.

Lemma _decrypt_Return this data w plain w' :
  _decrypt this data w = (Return plain, w') ->
  exists s key pt,
    data = JsString s /\ files w !! keyFile this = Some key /\
    gcm_open key (slice 0 12 (base64_decode s))
                 (slice 12 28 (base64_decode s))
                 (slice_from 28 (base64_decode s)) = Some pt /\
    plain = utf8_decode pt /\ w' = w.
Proof.
  unfold _decrypt. intros H.
  apply bind_Return_inv in H as (key & w1 & H1 & H).
  apply readFileSync_Return in H1 as [F ->].
  apply bind_Return_inv in H as (buf & w2 & H2 & H).
  destruct data as [|s|]; try discriminate.
  apply ret_eq in H2 as [[= ->] ->].
  apply bind_Return_inv in H as (pt & w3 & H3 & H).
  unfold aes256gcm_decrypt in H3.
  destruct (negb (Nat.eqb (length key) 32)); [discriminate|].
  destruct (gcm_open _ _ _ _) as [pt'|] eqn:O; [|discriminate].
  apply ret_eq in H3 as [[= ->] ->].
  apply ret_eq in H as [[= ->] ->].
  eauto 10.
Qed.

(** *** External commands *)

Lemma bytes_of_line s :
  list_byte_of_string (s +:+ newline) = (list_byte_of_string s ++ [x0a])%list.
Proof.
  unfold list_byte_of_string.
  induction s as [|c s IH]; [done|].
  change (String c s +:+ newline) with (String c (s +:+ newline)).
  cbn [list_ascii_of_string map]. by rewrite IH.
Qed.

Lemma trim_newline s : trim (s +:+ newline) = trim s.
Proof.
  unfold trim, trimEnd_bytes. rewrite bytes_of_line, rev_app_distr.
  reflexivity.
Qed.

Lemma _decrypt_world this data w r w' :
  _decrypt this data w = (r, w') -> w' = w.
Proof.
  unfold _decrypt, bind, readFileSync, aes256gcm_decrypt, ret, throw.
  destruct (files w !! keyFile this) as [key|]; [|by intros [= <- <-]].
  destruct data as [|s|k]; try by intros [= <- <-].
  destruct (negb (Nat.eqb (length key) 32)); [by intros [= <- <-]|].
  destruct (gcm_open _ _ _ _); by intros [= <- <-].
Qed.

Lemma _decrypt_not_string this data w :
  (forall s, data <> JsString s) ->
  exists e, _decrypt this data w = (Throw e, w).
Proof.
  intros Hs. unfold _decrypt, bind, readFileSync, throw.
  destruct (files w !! keyFile this) as [key|]; [|eauto].
  destruct data as [|s|k]; eauto. by destruct (Hs s).
Qed.

Lemma _getMac_output this account w out w2 :
  execSync (mac_find_command this account) None w = (Return out, w2) ->
  _getMac this account w = (Return (Some (trim out)), w2).
Proof.
  intros H. unfold _getMac, try_catch.
  by rewrite (bind_Return _ _ _ _ _ H).
Qed.

Lemma _getLinux_output this account w w1 out w2 :
  _hasSecretTool w = (Return true, w1) ->
  execSync (linux_lookup_command this account) None w1 = (Return out, w2) ->
  _getLinux this account w = (Return (Some (trim out)), w2).
Proof.
  intros Hh H. unfold _getLinux.
  rewrite (bind_Return _ _ _ _ _ Hh). simpl negb. cbv iota.
  unfold bind at 1. unfold ret at 1. unfold try_catch.
  by rewrite (bind_Return _ _ _ _ _ H).
Qed.

Lemma _getNative_darwin this account w :
  platform w = "darwin" -> _getNative this account w = _getMac this account w.
Proof. intros P. unfold _getNative, bind, _isMac. by rewrite P. Qed.

Lemma _getNative_linux this account w :
  platform w = "linux" -> _getNative this account w = _getLinux this account w.
Proof.
  intros P. unfold _getNative, bind, _isMac, _isWindows, _isLinux.
  rewrite P. change (String.eqb "linux" "darwin") with false.
  cbv beta iota. rewrite P. change (String.eqb "linux" "win32") with false.
  cbv beta iota. rewrite P. reflexivity.
Qed.

Lemma get_native_Return this account w v w' :
  useFallback this = false ->
  _getNative this account w = (Return v, w') ->
  get this account w = (Return v, w').
Proof.
  intros U H. unfold get, try_catch. rewrite U.
  change (negb false) with true. cbv iota. by rewrite H.
Qed.

(** ** The claims *)

(** C1, on the encrypted cache.  On a store constructed with fallback
    forced, whose mapping file (if there is one) holds an object of
    strings, for every account other than [__proto__] and every secret,
    [get(account)] right after a [save(account, secret)] that returned
    normally returns the secret as it comes back from UTF-8 encoding and
    decoding, and leaves the host as it was.  So it returns exactly the
    secret when the secret is well formed (no lone surrogate), and no
    other secret comes back as it was saved. *)
Theorem fallback_get_after_save service w0 account password w w1 :
  account <> "__proto__" ->
  mapping_typed (constructor service (Some true) w0) w ->
  save (constructor service (Some true) w0) account password w
  = (Return tt, w1) ->
  get (constructor service (Some true) w0) account w1
  = (Return (Some (utf8_decode (utf8_encode password))), w1) /\
  (get (constructor service (Some true) w0) account w1
   = (Return (Some password), w1) <-> utf8_stable password).
Proof.
  intros Ha _ H. rewrite save_forced in H by done.
  rewrite get_forced by done.
  rewrite (fallback_roundtrip _ _ _ _ _
             (constructor_files_differ service (Some true) w0) Ha H).
  split; [reflexivity|]. unfold utf8_stable. split.
  - by intros [= E].
  - by intros ->.
Qed.

(** C4, with what [get] does.  On a store constructed with fallback
    forced, each of [save], [get] and [delete] goes straight to the
    encrypted cache and makes no native attempt.  [save] and [delete] are the cache operation
    itself, so an exception of the cache reaches the caller as it was
    thrown; [get] turns an exception of the cache into the not-found
    value [null]. *)
Theorem forced_store_uses_cache_only this account password w :
  useFallback this = true ->
  save this account password w = _saveFallback this account password w /\
  delete this account w = _deleteFallback this account w /\
  get this account w
  = match _getFallback this account w with
    | (Throw _, w') => (Return None, w')
    | r => r
    end.
Proof.
  intros U. split; [|split].
  - by apply save_forced.
  - by apply delete_forced.
  - by apply get_forced.
Qed.

(** C5.  When the mapping has been read, [_getFallback(account)] returns
    [null] if the account is not a key of the mapping, and also if
    decrypting the stored value throws, whatever the exception: a failed
    decryption never reaches the caller and looks like an absent
    account. *)
Theorem getFallback_not_found this account w c w1 :
  _readCache this w = (Return c, w1) ->
  c !! account = None \/
  (exists e w2, _decrypt this (obj_get c account) w1 = (Throw e, w2)) ->
  _getFallback this account w = (Return None, w1).
Proof.
  intros Hr Hc.
  assert (truthy (obj_get c account) = false \/
          exists e, _decrypt this (obj_get c account) w1 = (Throw e, w1))
    as [Hf | (e & Hd)].
  { destruct Hc as [Hn | (e & w2 & Hd)].
    - unfold obj_get. rewrite Hn. case_bool_decide; [right | by left].
      by apply _decrypt_not_string.
    - right. exists e. by rewrite (_decrypt_world _ _ _ _ _ Hd) in Hd. }
  - unfold _getFallback. rewrite (bind_Return _ _ _ _ _ Hr). by rewrite Hf.
  - unfold _getFallback. rewrite (bind_Return _ _ _ _ _ Hr).
    destruct (truthy (obj_get c account)); [|done]. simpl.
    unfold try_catch. by rewrite (bind_Throw _ _ _ _ _ Hd).
Qed.

(** C6.  The value [_saveFallback] stores for an account is the blob of
    [_encrypt]: when it returns normally, the mapping read back from the
    file is the prior mapping with, under the account, the base64 text of
    nonce, tag and ciphertext in this order, where the nonce is the next
    12 bytes of the random generator, the tag has 16 bytes, and tag and
    ciphertext are those of AES-256-GCM on the UTF-8 bytes of the secret
    under the stored key of 32 bytes.  [_encrypt] itself returns a blob
    of this layout and moves the generator 12 bytes on.  [_decrypt] reads
    its argument in the same layout (bytes 0 to 12, 12 to 28, and from 28
    on) and returns a text only when the cipher accepts the tag, the text
    being the decoded plaintext. *)
Theorem blob_layout this account password w w1 text wt blob wt'
    data w2 plain w3 :
  _saveFallback this account password w = (Return tt, w1) ->
  _encrypt this text wt = (Return blob, wt') ->
  _decrypt this (JsString data) w2 = (Return plain, w3) ->
  (exists c0 wa key iv tag enc stored,
     _readCache this w = (Return c0, wa) /\
     files wa !! keyFile this = Some key /\ length key = 32 /\
     iv = next_random 12 wa /\ length iv = 12 /\ length tag = 16 /\
     gcm_seal key iv (utf8_encode password) = (enc, tag) /\
     stored = base64_encode (iv ++ tag ++ enc) /\
     _readCache this w1 = (Return (obj_set c0 account stored), w1) /\
     (account <> "__proto__" ->
      obj_set c0 account stored !! account = Some stored)) /\
  (exists key iv tag enc,
     files wt !! keyFile this = Some key /\
     iv = next_random 12 wt /\ rng_pos wt' = rng_pos wt + 12 /\
     length iv = 12 /\ length tag = 16 /\
     gcm_seal key iv (utf8_encode text) = (enc, tag) /\
     blob = base64_encode (iv ++ tag ++ enc)) /\
  (exists key pt,
     files w2 !! keyFile this = Some key /\
     gcm_open key (take 12 (base64_decode data))
                  (take 16 (drop 12 (base64_decode data)))
                  (drop 28 (base64_decode data)) = Some pt /\
     plain = utf8_decode pt).
Proof.
  intros Hs He Hd. split; [|split].
  - apply _saveFallback_Return in Hs
      as (c0 & wa & key & Hr & Fk & Lk & R & _ & Fc).
    exists c0, wa, key, (next_random 12 wa),
      (gcm_seal key (next_random 12 wa) (utf8_encode password)).2,
      (gcm_seal key (next_random 12 wa) (utf8_encode password)).1,
      (sealed_blob key password wa).
    split; [done|]. split; [done|]. split; [done|]. split; [done|].
    split; [apply length_next_random|].
    split; [apply gcm_tag_length|].
    split; [by destruct (gcm_seal _ _ _)|].
    split; [done|].
    split; [by apply _readCache_written|].
    intros Ha. unfold obj_set.
    rewrite (bool_decide_eq_false_2 _ Ha). simpl.
    by rewrite lookup_insert_eq.
  - apply _encrypt_Return in He as (key & Fk & Lk & -> & ->).
    exists key, (next_random 12 wt),
      (gcm_seal key (next_random 12 wt) (utf8_encode text)).2,
      (gcm_seal key (next_random 12 wt) (utf8_encode text)).1.
    split; [done|]. split; [done|]. split; [done|].
    split; [apply length_next_random|].
    split; [apply gcm_tag_length|].
    split; [by destruct (gcm_seal _ _ _) | done].
  - apply _decrypt_Return in Hd as (s & key & pt & [= <-] & Fk & O & -> & _).
    exists key, pt. repeat split; try done.
Qed.


(** C8, on the encrypted cache.  On a store constructed with fallback
    forced, whose mapping file (if there is one) holds an object of
    strings, for every account other than [__proto__] and every two
    distinct secrets of which the second is well formed (it comes back
    from UTF-8 encoding and decoding), after two saves of the account that
    returned normally [get] returns the second secret, and so not the
    first. *)
Theorem fallback_overwrite service w0 account s1 s2 w w1 w2 :
  account <> "__proto__" ->
  s1 <> s2 ->
  utf8_stable s2 ->
  mapping_typed (constructor service (Some true) w0) w ->
  save (constructor service (Some true) w0) account s1 w = (Return tt, w1) ->
  save (constructor service (Some true) w0) account s2 w1 = (Return tt, w2) ->
  get (constructor service (Some true) w0) account w2
  = (Return (Some s2), w2) /\
  (get (constructor service (Some true) w0) account w2).1
  <> Return (Some s1).
Proof.
  intros Ha Hs U _ _ H. rewrite save_forced in H by done.
  rewrite get_forced by done.
  rewrite (fallback_roundtrip _ _ _ _ _
             (constructor_files_differ service (Some true) w0) Ha H).
  rewrite U. split; [done|]. simpl. congruence.
Qed.


(** C10.  On macOS, and on Linux when [secret-tool] is there, the native
    [get] returns the output of the lookup command with the white space
    at both ends removed; a store without forced fallback returns this
    value to the caller.  So when the command prints the stored secret,
    followed by a line feed or not, the caller gets the secret without
    its surrounding white space. *)
Theorem native_get_trims this account w out w2 :
  (platform w = "darwin" /\
   execSync (mac_find_command this account) None w = (Return out, w2)) \/
  (platform w = "linux" /\
   exists w1,
     _hasSecretTool w = (Return true, w1) /\
     execSync (linux_lookup_command this account) None w1
     = (Return out, w2)) ->
  _getNative this account w = (Return (Some (trim out)), w2) /\
  (useFallback this = false ->
   get this account w = (Return (Some (trim out)), w2)) /\
  (forall secret,
     out = secret \/ out = secret +:+ newline -> trim out = trim secret).
Proof.
  intros H.
  assert (_getNative this account w = (Return (Some (trim out)), w2)) as E.
  { destruct H as [[P H] | (P & w1 & Hh & H)].
    - rewrite _getNative_darwin by done. by apply _getMac_output.
    - rewrite _getNative_linux by done. by eapply _getLinux_output. }
  split; [done|]. split.
  - intros U. by apply get_native_Return.
  - intros secret [-> | ->]; [done | apply trim_newline].
Qed.

End Properties.

(** ** Runs on concrete hosts *)

Module Runs.
Import Scenario.
#[local] Existing Instance Reference.lib.

(** The mapping held by the cache of [stored]. *)
Definition stored_mapping : gmap string string :=
  match (_readCache forced stored).1 with
  | Return c => c
  | Throw _ => ∅
  end.


(** The host [stored] with the value of bob replaced by a blob that was
    not produced under the key. *)
Definition tampered : World :=
  with_files
    (<[cacheFile forced :=
         utf8_encode (JSON_stringify 2 (<["bob" := "AAAAAAAAAAAA"]> ∅))]>
       (files stored))
    stored.

(** A Linux host with [secret-tool], after a secret with white space at
    both ends has been saved natively. *)
Definition padded : string := " hunter2 ".

Definition linux_saved : World :=
  (save native "alice" padded (host "linux" secret_tool)).2.

(** C1, witness: a forced store gives back what was saved. *)
Lemma fallback_get_after_save_witness :
  "alice" <> "__proto__" /\
  let w := host "linux" no_tool in
  let w1 := (save forced "alice" padded w).2 in
  mapping_typed forced w /\
  get forced "alice" w1
  = (Return (Some (utf8_decode (utf8_encode padded))), w1) /\
  (get forced "alice" w1 = (Return (Some padded), w1) <->
   utf8_stable padded).
Proof.
  assert ("alice" <> "__proto__") as Ha by discriminate.
  assert (mapping_typed forced (host "linux" no_tool)) as T
    by (intros data F; vm_compute in F; discriminate).
  assert (save forced "alice" padded (host "linux" no_tool)
          = (Return tt, (save forced "alice" padded (host "linux" no_tool)).2))
    as S by (vm_compute; reflexivity).
  split; [exact Ha|]. cbv zeta. split; [exact T|].
  exact (fallback_get_after_save "svc" (host "linux" no_tool) "alice" padded
           (host "linux" no_tool) _ Ha T S).
Defined.

(** C1, counterexample: on Linux with a working [secret-tool] the store
    saves natively a secret that begins and ends with a space; [get]
    right after returns the secret without the two spaces. *)
Lemma get_after_save_returns_trimmed_secret :
  let w := host "linux" secret_tool in
  let r := save native "alice" " hunter2 " w in
  r.1 = Return tt /\
  (get native "alice" r.2).1 = Return (Some "hunter2") /\
  (get native "alice" r.2).1 <> Return (Some " hunter2 ").
Proof.
  cbv zeta. split; [|split].
  - vm_compute. reflexivity.
  - vm_compute. reflexivity.
  - vm_compute. discriminate.
Qed.

(** C2, at the failing input: on macOS and on Windows [save] runs one
    command, with the secret inside the command line and nothing on the
    standard input; on Linux the secret is on the standard input and the
    command line does not depend on it. *)
Theorem save_puts_secret_on_command_line :
  exec_log (save native "alice" "hunter2" (host "darwin" quiet_tool)).2
  = [ mkExecCall
        ("security add-generic-password -a " +:+ quoted "alice" +:+
         " -s " +:+ quoted "svc" +:+ " -w " +:+ quoted "hunter2" +:+ " -U")
        None ] /\
  (exists file,
     (_getFilePath native "alice" (host "win32" quiet_tool)).1 = Return file /\
     exec_log (save native "alice" "hunter2" (host "win32" quiet_tool)).2
     = [ mkExecCall (pwsh_command (windows_save_script "hunter2" file))
           None ]) /\
  exec_log (save native "alice" "hunter2" (host "linux" quiet_tool)).2
  = [ mkExecCall "command -v secret-tool" None;
      mkExecCall
        ("secret-tool store --label=" +:+ quoted "svc" +:+ " service " +:+
         quoted "svc" +:+ " account " +:+ quoted "alice")
        (Some "hunter2") ].
Proof.
  split; [|split].
  - vm_compute. reflexivity.
  - exists "keyvault/svc-alice.txt". split; vm_compute; reflexivity.
  - vm_compute. reflexivity.
Qed.

(** C3, at the failing input: on Linux without [secret-tool], with a
    mapping file that is no JSON, the native attempt of [get] throws, the
    attempt on the cache throws in turn, and this second exception
    reaches the caller; the same store with fallback forced returns
    [null] on the same host. *)
Theorem get_raises_when_both_attempts_fail :
  useFallback native = false /\
  (_getNative native "bob" truncated).1 = Throw secret_tool_missing /\
  (get native "bob" truncated).1 = Throw SyntaxError /\
  (get forced "bob" truncated).1 = Return None.
Proof.
  split; [reflexivity|]. split; [|split]; vm_compute; reflexivity.
Qed.

(** C4, witness. *)
Lemma forced_store_uses_cache_only_witness :
  useFallback forced = true /\
  save forced "alice" "hunter2" stored
  = _saveFallback forced "alice" "hunter2" stored /\
  delete forced "alice" stored = _deleteFallback forced "alice" stored /\
  get forced "alice" stored
  = match _getFallback forced "alice" stored with
    | (Throw _, w') => (Return None, w')
    | r => r
    end.
Proof.
  split; [reflexivity|].
  apply (forced_store_uses_cache_only forced "alice" "hunter2" stored).
  reflexivity.
Defined.

(** C4, counterexample: with fallback forced and a mapping file that is
    no JSON, the cache operation behind [get] throws, and [get] returns
    [null] instead of passing the exception on. *)
Lemma forced_get_swallows_cache_failure :
  useFallback forced = true /\
  (_getFallback forced "bob" truncated).1 = Throw SyntaxError /\
  (get forced "bob" truncated).1 = Return None /\
  (get forced "bob" truncated).1 <> Throw SyntaxError.
Proof.
  split; [reflexivity|]. split; [|split].
  - vm_compute. reflexivity.
  - vm_compute. reflexivity.
  - vm_compute. discriminate.
Qed.

(** C5, witness: the value stored for bob does not decrypt, and carol
    is absent; both read as not found. *)
Lemma getFallback_not_found_witness :
  (exists e w2,
     _decrypt forced (obj_get (<["bob" := "AAAAAAAAAAAA"]> ∅) "bob") tampered
     = (Throw e, w2)) /\
  _getFallback forced "bob" tampered = (Return None, tampered) /\
  _getFallback forced "carol" tampered = (Return None, tampered).
Proof.
  assert (_readCache forced tampered
          = (Return (<["bob" := "AAAAAAAAAAAA"]> ∅), tampered)) as Hr.
  { vm_compute. reflexivity. }
  assert (exists e w2,
     _decrypt forced (obj_get (<["bob" := "AAAAAAAAAAAA"]> ∅) "bob") tampered
     = (Throw e, w2)) as Hd.
  { do 2 eexists. vm_compute. reflexivity. }
  split; [exact Hd|]. split.
  - apply (getFallback_not_found forced "bob" tampered _ tampered Hr).
    right. exact Hd.
  - apply (getFallback_not_found forced "carol" tampered _ tampered Hr).
    left. vm_compute. reflexivity.
Defined.

(** C6, witness: the blob stored by a save, a blob made by [_encrypt],
    and the same blob read by [_decrypt]. *)
Lemma blob_layout_witness :
  let w1 := (_saveFallback forced "alice" "hunter2" stored).2 in
  let sealed := _encrypt forced "hunter2" stored in
  exists blob,
    _saveFallback forced "alice" "hunter2" stored = (Return tt, w1) /\
    sealed = (Return blob, sealed.2) /\
    _decrypt forced (JsString blob) stored = (Return "hunter2", stored) /\
    (exists c0 wa key iv tag enc stored_blob,
       _readCache forced stored = (Return c0, wa) /\
       files wa !! keyFile forced = Some key /\ length key = 32 /\
       iv = next_random 12 wa /\ length iv = 12 /\ length tag = 16 /\
       gcm_seal key iv (utf8_encode "hunter2") = (enc, tag) /\
       stored_blob = base64_encode (iv ++ tag ++ enc) /\
       _readCache forced w1 = (Return (obj_set c0 "alice" stored_blob), w1) /\
       ("alice" <> "__proto__" ->
        obj_set c0 "alice" stored_blob !! "alice" = Some stored_blob)) /\
    (exists key iv tag enc,
       files stored !! keyFile forced = Some key /\
       iv = next_random 12 stored /\
       rng_pos sealed.2 = rng_pos stored + 12 /\
       length iv = 12 /\ length tag = 16 /\
       gcm_seal key iv (utf8_encode "hunter2") = (enc, tag) /\
       blob = base64_encode (iv ++ tag ++ enc)).
Proof.
  cbv zeta.
  assert (_saveFallback forced "alice" "hunter2" stored
          = (Return tt, (_saveFallback forced "alice" "hunter2" stored).2))
    as Hs.
  { vm_compute. reflexivity. }
  assert (exists blob,
            _encrypt forced "hunter2" stored
            = (Return blob, (_encrypt forced "hunter2" stored).2) /\
            _decrypt forced (JsString blob) stored
            = (Return "hunter2", stored)) as (blob & He & Hd).
  { eexists. split; vm_compute; reflexivity. }
  exists blob. split; [exact Hs|]. split; [exact He|]. split; [exact Hd|].
  pose proof (blob_layout forced "alice" "hunter2" stored _ "hunter2" stored
                blob _ blob stored "hunter2" stored Hs He Hd) as L.
  exact (conj (proj1 L) (proj1 (proj2 L))).
Defined.



(** C8, witness: two saves on a forced store. *)
Lemma fallback_overwrite_witness :
  let w := host "linux" no_tool in
  let w1 := (save forced "alice" "hunter2" w).2 in
  let w2 := (save forced "alice" "hunter3" w1).2 in
  "alice" <> "__proto__" /\ "hunter2" <> "hunter3" /\
  utf8_stable "hunter3" /\ mapping_typed forced w /\
  get forced "alice" w2 = (Return (Some "hunter3"), w2) /\
  (get forced "alice" w2).1 <> Return (Some "hunter2").
Proof.
  cbv zeta.
  assert (utf8_stable "hunter3") as U by reflexivity.
  assert (mapping_typed forced (host "linux" no_tool)) as T
    by (intros data F; vm_compute in F; discriminate).
  split; [discriminate|]. split; [discriminate|].
  split; [exact U|]. split; [exact T|].
  apply (fallback_overwrite "svc" (host "linux" no_tool) "alice"
           "hunter2" "hunter3" (host "linux" no_tool)
           (save forced "alice" "hunter2" (host "linux" no_tool)).2).
  - discriminate.
  - discriminate.
  - exact U.
  - exact T.
  - vm_compute. reflexivity.
  - vm_compute. reflexivity.
Defined.

(** C8, counterexample: on Linux with a working [secret-tool] the
    account is saved natively twice, the second secret being the first
    followed by a space; [get] then returns the first secret. *)
Lemma get_after_overwrite_returns_earlier_secret :
  let w := host "linux" secret_tool in
  let r1 := save native "alice" "hunter2" w in
  let r2 := save native "alice" "hunter2 " r1.2 in
  "hunter2" <> "hunter2 " /\
  r1.1 = Return tt /\ r2.1 = Return tt /\
  (get native "alice" r2.2).1 = Return (Some "hunter2") /\
  (get native "alice" r2.2).1 <> Return (Some "hunter2 ").
Proof.
  cbv zeta. split; [discriminate|]. split; [|split; [|split]].
  - vm_compute. reflexivity.
  - vm_compute. reflexivity.
  - vm_compute. reflexivity.
  - vm_compute. discriminate.
Qed.


(** C10, witness: the stored secret has a space at both ends, and the
    caller gets it without them. *)
Lemma native_get_trims_witness :
  let w2 := (_getNative native "alice" linux_saved).2 in
  platform linux_saved = "linux" /\
  (exists w1,
     _hasSecretTool linux_saved = (Return true, w1) /\
     execSync (linux_lookup_command native "alice") None w1
     = (Return padded, w2)) /\
  _getNative native "alice" linux_saved = (Return (Some "hunter2"), w2) /\
  get native "alice" linux_saved = (Return (Some "hunter2"), w2).
Proof.
  cbv zeta.
  assert (platform linux_saved = "linux") as P by reflexivity.
  assert (exists w1,
     _hasSecretTool linux_saved = (Return true, w1) /\
     execSync (linux_lookup_command native "alice") None w1
     = (Return padded, (_getNative native "alice" linux_saved).2)) as H.
  { eexists. split; vm_compute; reflexivity. }
  split; [exact P|]. split; [exact H|].
  destruct (native_get_trims native "alice" linux_saved padded _
              (or_intror (conj P H))) as (E1 & E2 & _).
  split; [exact E1 | exact (E2 eq_refl)].
Defined.

End Runs.

(** * Further properties of the class *)

(** ** What the effects leave alone *)

(** A field of the host that the file system, the random generator and
    the console do not touch. *)
Class HostField {X} (f : World -> X) : Prop := {
  field_dirs : forall d w, f (with_dirs d w) = f w;
  field_files : forall x w, f (with_files x w) = f w;
  field_modes : forall m w, f (with_modes m w) = f w;
  field_disk_free : forall n w, f (with_disk_free n w) = f w;
  field_rng_pos : forall n w, f (with_rng_pos n w) = f w;
  field_warnings : forall l w, f (with_warnings l w) = f w
}.

#[local] Instance exec_log_field : HostField exec_log.
Proof. by split. Qed.

#[local] Instance platform_field : HostField platform.
Proof. by split. Qed.

#[local] Instance tool_field : HostField tool.
Proof. by split. Qed.

(** [keeps f m]: whatever its outcome, [m] leaves the field [f] as it
    was. *)
Definition keeps {X} (f : World -> X) {A} (m : M A) : Prop :=
  forall w, f (m w).2 = f w.

(** [steady m]: whatever its outcome, [m] keeps every path that exists
    and the content of every file that exists. *)
Definition steady {A} (m : M A) : Prop :=
  forall w, extends w (m w).2.

Section Keeps.
Context {X : Type} (f : World -> X) `{!HostField f}.

Lemma keeps_ret {A} (a : A) : keeps f (ret a).
Proof. by intros w. Qed.

Lemma keeps_throw {A} e : keeps f (@throw A e).
Proof. by intros w. Qed.

Lemma keeps_bind {A B} (m : M A) (k : A -> M B) :
  keeps f m -> (forall a, keeps f (k a)) -> keeps f (bind m k).
Proof.
  intros Hm Hk w. unfold bind. specialize (Hm w).
  destruct (m w) as [[a|e] w1]; simpl in *; [|done].
  by rewrite Hk.
Qed.

Lemma keeps_try_catch {A} (m : M A) h :
  keeps f m -> (forall e, keeps f (h e)) -> keeps f (try_catch m h).
Proof.
  intros Hm Hh w. unfold try_catch. specialize (Hm w).
  destruct (m w) as [[a|e] w1]; simpl in *; [done|].
  by rewrite Hh.
Qed.

Lemma keeps_if {A} (b : bool) (m1 m2 : M A) :
  keeps f m1 -> keeps f m2 -> keeps f (if b then m1 else m2).
Proof. by destruct b. Qed.

Lemma keeps_existsSync p : keeps f (existsSync p).
Proof. by intros w. Qed.

Lemma keeps_mkdirSync p : keeps f (mkdirSync p).
Proof.
  intros w. unfold mkdirSync. case_bool_decide; [done|].
  destruct (write_refused w p); [done|].
  destruct (files w !! p); [done | apply field_dirs].
Qed.

Lemma keeps_readFileSync p : keeps f (readFileSync p).
Proof. intros w. unfold readFileSync. by destruct (files w !! p). Qed.

Lemma keeps_writeFileSync p data : keeps f (writeFileSync p data).
Proof.
  intros w. unfold writeFileSync. case_bool_decide; [done|].
  destruct (write_refused w p); [done|].
  destruct (disk_free w) as [n|];
    [cbv zeta; destruct (Nat.leb (length data) _)|];
    simpl; by rewrite ?field_disk_free, field_files.
Qed.

Lemma keeps_chmodSync p mode : keeps f (chmodSync p mode).
Proof.
  intros w. unfold chmodSync. destruct (negb (path_exists p w)); [done|].
  destruct (negb (chmod_supported w)); [done | apply field_modes].
Qed.

Lemma keeps_unlinkSync p : keeps f (unlinkSync p).
Proof.
  intros w. unfold unlinkSync.
  destruct (files w !! p); [apply field_files | done].
Qed.

Lemma keeps_randomBytes n : keeps f (randomBytes n).
Proof. intros w. apply field_rng_pos. Qed.

Lemma keeps_console_warn msg : keeps f (console_warn msg).
Proof. intros w. apply field_warnings. Qed.

End Keeps.

Create HintDb effects.

#[local] Hint Resolve keeps_ret keeps_throw keeps_existsSync
  keeps_mkdirSync keeps_readFileSync keeps_writeFileSync
  keeps_chmodSync keeps_unlinkSync keeps_randomBytes
  keeps_console_warn : effects.

Ltac effects :=
  repeat first
    [ progress intros
    | apply keeps_bind | apply keeps_try_catch | apply keeps_if
    | solve [auto with effects typeclass_instances]
    | match goal with
      | |- keeps _ (match ?x with _ => _ end) => destruct x
      end ].

Section Further.
Context `{lib : NodeLib}.

Section KeepsCache.
Context {X : Type} (f : World -> X) `{!HostField f}.

Lemma keeps_ensureCache this : keeps f (_ensureCache this).
Proof. unfold _ensureCache. effects. Qed.

Lemma keeps_readCache this : keeps f (_readCache this).
Proof. unfold _readCache. pose proof (keeps_ensureCache this). effects. Qed.

Lemma keeps_writeCache this obj : keeps f (_writeCache this obj).
Proof. unfold _writeCache. pose proof (keeps_ensureCache this). effects. Qed.

Lemma keeps_encrypt this text : keeps f (_encrypt this text).
Proof. unfold _encrypt, aes256gcm_encrypt. effects. Qed.

Lemma keeps_decrypt this data : keeps f (_decrypt this data).
Proof. unfold _decrypt, aes256gcm_decrypt. effects. Qed.

Lemma keeps_saveFallback this account password :
  keeps f (_saveFallback this account password).
Proof.
  unfold _saveFallback.
  pose proof (keeps_readCache this). pose proof (keeps_encrypt this).
  pose proof (keeps_writeCache this). effects.
Qed.

Lemma keeps_getFallback this account : keeps f (_getFallback this account).
Proof.
  unfold _getFallback.
  pose proof (keeps_readCache this). pose proof (keeps_decrypt this).
  effects.
Qed.

Lemma keeps_deleteFallback this account :
  keeps f (_deleteFallback this account).
Proof.
  unfold _deleteFallback.
  pose proof (keeps_readCache this). pose proof (keeps_writeCache this).
  effects.
Qed.

End KeepsCache.

(** X1.  With fallback forced, no method of the class runs an external
    command: the record of the calls of [execSync] is left as it was. *)
Theorem forced_store_runs_no_command this account password w :
  useFallback this = true ->
  exec_log (save this account password w).2 = exec_log w /\
  exec_log (get this account w).2 = exec_log w /\
  exec_log (delete this account w).2 = exec_log w.
Proof.
  intros U. split; [|split].
  - rewrite save_forced by done. by apply keeps_saveFallback.
  - rewrite get_forced by done.
    pose proof (keeps_getFallback exec_log this account w) as H.
    by destruct (_getFallback this account w) as [[|] ?].
  - rewrite delete_forced by done. by apply keeps_deleteFallback.
Qed.


(** ** What [_ensureCache] keeps and what it makes *)

Lemma extends_fresh_insert p d w w' :
  path_exists p w = false ->
  files w' = <[p := d]> (files w) -> dirs w' = dirs w -> extends w w'.
Proof.
  intros Hn Hf Hd. split.
  - intros q. by apply path_exists_written with (p := p) (d := d).
  - intros q x E. rewrite Hf, lookup_insert_ne; [done|].
    intros ->. apply path_exists_false_file in Hn. congruence.
Qed.

Lemma writeFileSync_fresh_extends p data w :
  path_exists p w = false -> extends w (writeFileSync p data w).2.
Proof.
  intros Hn. unfold writeFileSync. case_bool_decide; [apply extends_refl|].
  destruct (write_refused w p); [apply extends_refl|].
  destruct (disk_free w) as [n|].
  - cbv zeta. destruct (Nat.leb (length data) _); simpl;
      by eapply extends_fresh_insert.
  - simpl. by eapply extends_fresh_insert.
Qed.

Lemma steady_ret {A} (a : A) : steady (ret a).
Proof. intros w. apply extends_refl. Qed.

Lemma steady_bind {A B} (m : M A) (k : A -> M B) :
  steady m -> (forall a, steady (k a)) -> steady (bind m k).
Proof.
  intros Hm Hk w. unfold bind. specialize (Hm w).
  destruct (m w) as [[a|e] w1]; simpl in *; [|done].
  eapply extends_trans; [exact Hm | apply Hk].
Qed.

Lemma steady_mkdirSync p : steady (mkdirSync p).
Proof.
  intros w. destruct (mkdirSync p w) as [[[]|e] w'] eqn:E.
  - by apply mkdirSync_Return in E as [X _].
  - unfold mkdirSync in E. case_bool_decide; [discriminate|].
    destruct (write_refused w p).
    + injection E as _ <-. apply extends_refl.
    + destruct (files w !! p); [|discriminate].
      injection E as _ <-. apply extends_refl.
Qed.

Lemma steady_chmod_step p mode msg :
  steady (try_catch (chmodSync p mode)
            (fun error => console_warn (msg +:+ error_to_string error))).
Proof.
  intros w. destruct (chmod_step p mode msg w) as (w' & -> & Hf & Hd).
  by apply same_fs_extends.
Qed.

(** A step of [_ensureCache]: what is missing is made, what is there is
    left alone. *)
Lemma steady_make_if_missing p (make : M unit) :
  (forall w, path_exists p w = false -> extends w (make w).2) ->
  steady (e <- existsSync p ;; if negb e then make else ret tt).
Proof.
  intros Hm w. unfold bind, existsSync.
  destruct (path_exists p w) eqn:E; simpl; [apply extends_refl | by apply Hm].
Qed.

Lemma make_key_extends this w :
  path_exists (keyFile this) w = false ->
  extends w
    ((key <- randomBytes 32 ;;
      writeFileSync (keyFile this) key ;;;
      try_catch (chmodSync (keyFile this) mode_600)
        (fun error =>
           console_warn ("Could not set permissions on key file: " +:+
                         error_to_string error))) w).2.
Proof.
  intros Hn. unfold bind at 1. rewrite randomBytes_eq.
  set (w1 := with_rng_pos (rng_pos w + 32) w).
  assert (path_exists (keyFile this) w1 = false) as Hn1 by exact Hn.
  pose proof (writeFileSync_fresh_extends (keyFile this)
                (next_random 32 w) w1 Hn1) as X.
  unfold bind.
  destruct (writeFileSync (keyFile this) (next_random 32 w) w1)
    as [[[]|e] w2]; simpl in X |- *.
  - eapply extends_trans; [exact X | apply steady_chmod_step].
  - exact X.
Qed.

Lemma make_mapping_extends this w :
  path_exists (cacheFile this) w = false ->
  extends w
    ((writeFileSync (cacheFile this) (utf8_encode (JSON_stringify 0 ∅)) ;;;
      try_catch (chmodSync (cacheFile this) mode_600)
        (fun error =>
           console_warn ("Could not set permissions on cache file: " +:+
                         error_to_string error))) w).2.
Proof.
  intros Hn.
  pose proof (writeFileSync_fresh_extends (cacheFile this)
                (utf8_encode (JSON_stringify 0 ∅)) w Hn) as X.
  unfold bind.
  destruct (writeFileSync (cacheFile this) _ w) as [[[]|e] w2];
    simpl in X |- *.
  - eapply extends_trans; [exact X | apply steady_chmod_step].
  - exact X.
Qed.

Lemma steady_make_then p (make : M unit) {B} (k : M B) :
  (forall w, path_exists p w = false -> extends w (make w).2) ->
  steady k ->
  steady (e <- existsSync p ;; (if negb e then make else ret tt) ;;; k).
Proof.
  intros Hm Hk w. unfold bind at 1. unfold existsSync.
  destruct (path_exists p w) eqn:E; simpl negb; cbv iota.
  - apply Hk.
  - specialize (Hm w E). unfold bind.
    destruct (make w) as [[[]|e] w1]; simpl in Hm |- *; [|done].
    eapply extends_trans; [exact Hm | apply Hk].
Qed.

Lemma steady_ensureCache this : steady (_ensureCache this).
Proof.
  unfold _ensureCache.
  apply steady_make_then; [intros w _; apply steady_mkdirSync|].
  apply steady_make_then; [apply make_key_extends|].
  apply steady_make_if_missing. apply make_mapping_extends.
Qed.

(** X2.  Whatever its outcome, [_ensureCache] keeps every file that exists
    with its content, the key file among them: a key is made only when
    there is none, and is never made again. *)
Theorem ensureCache_keeps_existing_files this w p data :
  files w !! p = Some data ->
  files (_ensureCache this w).2 !! p = Some data.
Proof. intros F. by apply (steady_ensureCache this w). Qed.

(** X3.  [_ensureCache] is idempotent: after a call that returned normally,
    a second call returns normally and leaves the host as it is. *)
Theorem ensureCache_idempotent this w w' :
  _ensureCache this w = (Return tt, w') ->
  _ensureCache this w' = (Return tt, w').
Proof.
  intros H. apply _ensureCache_Return in H as [_ R].
  by apply _ensureCache_ready.
Qed.













(** ** Entries of the cache *)

Lemma _getFallback_no_own this account w c w1 :
  _readCache this w = (Return c, w1) ->
  c !! account = None ->
  _getFallback this account w = (Return None, w1).
Proof.
  intros Hr Hn. unfold _getFallback. rewrite (bind_Return _ _ _ _ _ Hr).
  unfold obj_get. rewrite Hn. case_bool_decide; [|done].
  simpl. unfold try_catch.
  destruct (_decrypt_not_string this (JsInherited account) w1) as (e & Hd);
    [done|].
  by rewrite (bind_Throw _ _ _ _ _ Hd).
Qed.

(** [holds this w account text]: the cache of [w] is complete, and its
    mapping has for [account] a blob sealing [text] under the key of
    [w]. *)
Definition holds (this : CredentialStore) (w : World)
    (account text : string) : Prop :=
  exists key c w0,
    cache_ready this w /\
    files w !! keyFile this = Some key /\ length key = 32 /\
    files w !! cacheFile this = Some (utf8_encode (JSON_stringify 2 c)) /\
    c !! account = Some (sealed_blob key text w0).

Lemma holds_getFallback this w account text :
  holds this w account text ->
  _getFallback this account w
  = (Return (Some (utf8_decode (utf8_encode text))), w).
Proof.
  intros (key & c & w0 & R & Fk & Lk & Fc & E).
  eapply _getFallback_stored; eauto. unfold obj_get. by rewrite E.
Qed.

Lemma holds_saved this account password w w1 :
  cacheFile this <> keyFile this ->
  account <> "__proto__" ->
  _saveFallback this account password w = (Return tt, w1) ->
  holds this w1 account password.
Proof.
  intros Hne Ha H.
  apply _saveFallback_Return in H as (c0 & wa & key & _ & _ & Lk & R & Fk & Fc).
  exists key, (obj_set c0 account (sealed_blob key password wa)), wa.
  split; [exact R|]. split; [by apply Fk|].
  split; [done|]. split; [done|].
  unfold obj_set. rewrite (bool_decide_eq_false_2 _ Ha). simpl.
  apply lookup_insert_eq.
Qed.

Lemma holds_readCache this w account text :
  holds this w account text ->
  exists key c w0,
    _readCache this w = (Return c, w) /\
    files w !! keyFile this = Some key /\ length key = 32 /\
    c !! account = Some (sealed_blob key text w0).
Proof.
  intros (key & c & w0 & R & Fk & Lk & Fc & E).
  exists key, c, w0. split; [by apply _readCache_written | done].
Qed.

Lemma holds_after_save this a p b t w w1 :
  cacheFile this <> keyFile this ->
  b <> a ->
  holds this w b t ->
  _saveFallback this a p w = (Return tt, w1) ->
  holds this w1 b t.
Proof.
  intros Hne Hb Hh H.
  apply holds_readCache in Hh as (key & c & w0 & Hr & Fk & Lk & E).
  apply _saveFallback_Return in H
    as (c0 & wa & key' & Hr' & Fk' & _ & R & Fk1 & Fc).
  rewrite Hr in Hr'. injection Hr' as <- <-.
  rewrite Fk in Fk'. injection Fk' as <-.
  exists key, (obj_set c a (sealed_blob key p w)), w0.
  split; [exact R|]. split; [by apply Fk1|].
  split; [done|]. split; [done|].
  by rewrite obj_set_lookup_ne.
Qed.

Lemma holds_after_delete this a b t w w1 :
  cacheFile this <> keyFile this ->
  b <> a ->
  holds this w b t ->
  _deleteFallback this a w = (Return tt, w1) ->
  holds this w1 b t.
Proof.
  intros Hne Hb Hh H.
  pose proof Hh as (key0 & c0' & w00 & R0 & Fk0 & _).
  apply holds_readCache in Hh as (key & c & w0 & Hr & Fk & Lk & E).
  unfold _deleteFallback in H. rewrite (bind_Return _ _ _ _ _ Hr) in H.
  rewrite (_writeCache_ready _ _ _ R0) in H.
  apply writeFileSync_Return in H as [Hf Hd].
  exists key, (obj_delete c a), w0.
  split; [by eapply cache_ready_written|].
  split; [by rewrite Hf, lookup_insert_ne|].
  split; [done|].
  split; [by rewrite Hf, lookup_insert_eq|].
  unfold obj_delete. by rewrite lookup_delete_ne.
Qed.

(** X5.  After [delete(account)] has returned normally on a store with
    fallback forced, [get(account)] returns [null], whatever the
    account. *)
Theorem get_after_delete_is_null this account w w1 :
  useFallback this = true ->
  delete this account w = (Return tt, w1) ->
  get this account w1 = (Return None, w1).
Proof.
  intros U H. rewrite delete_forced in H by done.
  rewrite get_forced by done.
  apply _deleteFallback_Return in H as (c0 & wa & _ & R & Fc).
  rewrite (_getFallback_no_own this account w1 (obj_delete c0 account) w1).
  - reflexivity.
  - by apply _readCache_written.
  - apply lookup_delete_eq.
Qed.

(** X6.  On a store with fallback forced, whose mapping file (if there
    is one) holds an object of strings, saving or deleting one account
    leaves every other account retrievable: a well-formed secret saved
    for [b] (one that comes back from UTF-8 encoding and decoding) is
    still what [get(b)] returns after a save or a delete of another
    account [a]. *)
Theorem other_account_stays_retrievable service w0 a p b t w w1 w2 :
  b <> a -> b <> "__proto__" ->
  utf8_stable t ->
  mapping_typed (constructor service (Some true) w0) w ->
  save (constructor service (Some true) w0) b t w = (Return tt, w1) ->
  save (constructor service (Some true) w0) a p w1 = (Return tt, w2) \/
  delete (constructor service (Some true) w0) a w1 = (Return tt, w2) ->
  get (constructor service (Some true) w0) b w2 = (Return (Some t), w2).
Proof.
  intros Hb Hp Ut _ H1 H2.
  pose proof (constructor_files_differ service (Some true) w0) as Hne.
  rewrite save_forced in H1 by done.
  apply holds_saved in H1; [|done..].
  rewrite get_forced by done.
  assert (holds (constructor service (Some true) w0) w2 b t) as Hh.
  { destruct H2 as [H2 | H2].
    - rewrite save_forced in H2 by done.
      exact (holds_after_save _ a p b t w1 w2 Hne Hb H1 H2).
    - rewrite delete_forced in H2 by done.
      exact (holds_after_delete _ a b t w1 w2 Hne Hb H1 H2). }
  by rewrite (holds_getFallback _ _ _ _ Hh), Ut.
Qed.

(** X7.  Saving under the account [__proto__] stores nothing: when the
    mapping has no key [__proto__], a [save] with fallback forced that
    returns normally leaves the mapping as it was, and [get] returns
    [null] for that account. *)
Theorem save_proto_stores_nothing this password w c0 wa w1 :
  useFallback this = true ->
  _readCache this w = (Return c0, wa) ->
  c0 !! "__proto__" = None ->
  save this "__proto__" password w = (Return tt, w1) ->
  _readCache this w1 = (Return c0, w1) /\
  get this "__proto__" w1 = (Return None, w1).
Proof.
  intros U Hr Hn H. rewrite save_forced in H by done.
  apply _saveFallback_Return in H
    as (c0' & wa' & key & Hr' & _ & _ & R & _ & Fc).
  rewrite Hr in Hr'. injection Hr' as <- <-.
  assert (obj_set c0 "__proto__" (sealed_blob key password wa) = c0) as E.
  { unfold obj_set. rewrite (bool_decide_eq_true_2 _ Hn).
    by rewrite (bool_decide_eq_true_2 _ (eq_refl "__proto__")). }
  rewrite E in Fc.
  assert (_readCache this w1 = (Return c0, w1)) as Hr1
    by by apply _readCache_written.
  split; [done|]. rewrite get_forced by done.
  by rewrite (_getFallback_no_own _ _ _ _ _ Hr1 Hn).
Qed.

(** ** A host without the files of the cache *)

Lemma constructor_key_not_dir svc fb w0 :
  keyFile (constructor svc fb w0) <> cacheDir (constructor svc fb w0).
Proof. apply path_join_key. Qed.

Lemma constructor_mapping_not_dir svc fb w0 :
  cacheFile (constructor svc fb w0) <> cacheDir (constructor svc fb w0).
Proof. apply path_join_mapping. Qed.

Lemma path_exists_other_dir q p w :
  q <> p -> path_exists q (with_dirs ({[p]} ∪ dirs w) w) = path_exists q w.
Proof.
  intros Hq. unfold path_exists. simpl. f_equal.
  apply bool_decide_ext. rewrite elem_of_union, elem_of_singleton. tauto.
Qed.

Lemma path_exists_other_file q p d w w' :
  q <> p -> files w' = <[p := d]> (files w) -> dirs w' = dirs w ->
  path_exists q w' = path_exists q w.
Proof.
  intros Hq Hf Hd. unfold path_exists. rewrite Hf, Hd.
  by rewrite lookup_insert_ne.
Qed.

Lemma mkdirSync_new p w w' :
  path_exists p w = false ->
  mkdirSync p w = (Return tt, w') -> w' = with_dirs ({[p]} ∪ dirs w) w.
Proof.
  intros Hn. unfold mkdirSync. case_bool_decide as D.
  { unfold path_exists in Hn. by rewrite (bool_decide_eq_true_2 _ D) in Hn. }
  destruct (write_refused w p); [discriminate|].
  destruct (files w !! p); [discriminate|]. by intros [= <-].
Qed.

Lemma writeFileSync_modes p data w r w' :
  writeFileSync p data w = (r, w') ->
  modes w' = modes w /\ chmod_supported w' = chmod_supported w.
Proof.
  unfold writeFileSync. case_bool_decide; [by intros [= <- <-]|].
  destruct (write_refused w p); [by intros [= <- <-]|].
  destruct (disk_free w) as [n|];
    [cbv zeta; destruct (Nat.leb _ _)|]; by intros [= <- <-].
Qed.

(** The three steps of [_ensureCache], one at a time. *)
Lemma _ensureCache_steps this w w' :
  _ensureCache this w = (Return tt, w') ->
  exists w1 w2,
    (if path_exists (cacheDir this) w
     then w1 = w else mkdirSync (cacheDir this) w = (Return tt, w1)) /\
    (if path_exists (keyFile this) w1
     then w2 = w1
     else exists wk,
         writeFileSync (keyFile this) (next_random 32 w1)
           (with_rng_pos (rng_pos w1 + 32) w1) = (Return tt, wk) /\
         try_catch (chmodSync (keyFile this) mode_600)
           (fun error =>
              console_warn ("Could not set permissions on key file: " +:+
                            error_to_string error)) wk = (Return tt, w2)) /\
    (if path_exists (cacheFile this) w2
     then w' = w2
     else exists wc,
         writeFileSync (cacheFile this) (utf8_encode (JSON_stringify 0 ∅)) w2
         = (Return tt, wc) /\
         try_catch (chmodSync (cacheFile this) mode_600)
           (fun error =>
              console_warn ("Could not set permissions on cache file: " +:+
                            error_to_string error)) wc = (Return tt, w')).
Proof.
  unfold _ensureCache. intros H.
  apply bind_Return_inv in H as (e1 & wa & H1 & H).
  apply existsSync_eq in H1 as [[= ->] ->].
  apply bind_Return_inv in H as ([] & w1 & H1 & H).
  apply bind_Return_inv in H as (e2 & wb & H2 & H).
  apply existsSync_eq in H2 as [[= ->] ->].
  apply bind_Return_inv in H as ([] & w2 & H2 & H).
  apply bind_Return_inv in H as (e3 & wc & H3 & H).
  apply existsSync_eq in H3 as [[= ->] ->].
  exists w1, w2. split; [|split].
  - destruct (path_exists (cacheDir this) w); simpl in H1; [|done].
    by apply ret_eq in H1 as [_ ->].
  - destruct (path_exists (keyFile this) w1); simpl in H2.
    + by apply ret_eq in H2 as [_ ->].
    + apply bind_Return_inv in H2 as (key & wk0 & Hk & H2).
      rewrite randomBytes_eq in Hk. injection Hk as <- <-.
      apply bind_Return_inv in H2 as ([] & wk & Hw & H2). eauto.
  - destruct (path_exists (cacheFile this) w2); simpl in H.
    + by apply ret_eq in H as [_ ->].
    + apply bind_Return_inv in H as ([] & wk & Hw & H). eauto.
Qed.

Lemma chmod_step_modes p mode msg w w' :
  try_catch (chmodSync p mode)
    (fun error => console_warn (msg +:+ error_to_string error)) w
  = (Return tt, w') ->
  files w' = files w /\ dirs w' = dirs w /\
  (forall q, q <> p -> modes w' !! q = modes w !! q) /\
  (chmod_supported w = true -> path_exists p w = true ->
   modes w' !! p = Some mode).
Proof.
  unfold try_catch, chmodSync, console_warn.
  destruct (path_exists p w); simpl.
  - destruct (chmod_supported w); simpl; intros [= <-]; simpl.
    + repeat split; try done.
      * intros q Hq. by rewrite lookup_insert_ne.
      * intros _ _. apply lookup_insert_eq.
    + repeat split; done.
  - intros [= <-]. simpl. repeat split; done.
Qed.

Lemma _ensureCache_key this w w' :
  keyFile this <> cacheDir this ->
  cacheFile this <> keyFile this ->
  path_exists (keyFile this) w = false ->
  _ensureCache this w = (Return tt, w') ->
  files w' !! keyFile this = Some (next_random 32 w) /\
  length (next_random 32 w) = 32 /\
  (chmod_supported w = true -> modes w' !! keyFile this = Some mode_600).
Proof.
  intros Hkd Hck Hn H.
  apply _ensureCache_steps in H as (w1 & w2 & S1 & S2 & S3).
  assert (path_exists (keyFile this) w1 = false /\
          next_random 32 w1 = next_random 32 w /\
          chmod_supported w1 = chmod_supported w) as (Hn1 & Er & Ec).
  { destruct (path_exists (cacheDir this) w) eqn:Ed; [by subst|].
    apply (mkdirSync_new _ _ _ Ed) in S1 as ->.
    split; [|done]. by rewrite path_exists_other_dir. }
  rewrite Hn1 in S2. destruct S2 as (wk & Hw & Hc).
  apply writeFileSync_Return in Hw as Hw'. destruct Hw' as [Hf Hd].
  assert (chmod_supported wk = chmod_supported w) as Eck.
  { rewrite <- Ec. by apply writeFileSync_modes in Hw as [_ ->]. }
  apply chmod_step_modes in Hc as (Hf2 & Hd2 & _ & Hm2).
  assert (files w2 !! keyFile this = Some (next_random 32 w)) as Fk.
  { rewrite Hf2, Hf, <- Er. apply lookup_insert_eq. }
  assert (chmod_supported w = true ->
          modes w2 !! keyFile this = Some mode_600) as Mk.
  { intros Hs. apply Hm2; [by rewrite Eck|].
    eapply path_exists_file. rewrite Hf. apply lookup_insert_eq. }
  split; [|split; [apply length_next_random|]].
  - destruct (path_exists (cacheFile this) w2); [by subst|].
    destruct S3 as (wc & Hwc & Hcc).
    apply writeFileSync_Return in Hwc as [Hf3 _].
    apply chmod_step_modes in Hcc as (Hf4 & _).
    rewrite Hf4, Hf3, lookup_insert_ne; done.
  - intros Hs. specialize (Mk Hs).
    destruct (path_exists (cacheFile this) w2); [by subst|].
    destruct S3 as (wc & Hwc & Hcc).
    assert (modes wc = modes w2) as Em.
    { by apply writeFileSync_modes in Hwc as [-> _]. }
    apply chmod_step_modes in Hcc as (_ & _ & Hm4 & _).
    rewrite Hm4, Em; [done|]. intros E. by apply Hck.
Qed.

(** X8.  On a host without key file, an [_ensureCache] that returns normally
    has written as key the next 32 bytes of the random generator, and,
    where permissions can be set, has made the file readable and writable
    by its owner only. *)
Theorem ensureCache_makes_key service fb w0 w w' :
  path_exists (keyFile (constructor service fb w0)) w = false ->
  _ensureCache (constructor service fb w0) w = (Return tt, w') ->
  files w' !! keyFile (constructor service fb w0)
  = Some (next_random 32 w) /\
  length (next_random 32 w) = 32 /\
  (chmod_supported w = true ->
   modes w' !! keyFile (constructor service fb w0) = Some mode_600).
Proof.
  apply _ensureCache_key.
  - apply constructor_key_not_dir.
  - apply constructor_files_differ.
Qed.

Lemma _readCache_missing this w c w' :
  cacheFile this <> cacheDir this ->
  cacheFile this <> keyFile this ->
  path_exists (cacheFile this) w = false ->
  _readCache this w = (Return c, w') ->
  c = ∅.
Proof.
  intros Hcd Hck Hn H.
  unfold _readCache in H.
  apply bind_Return_inv in H as ([] & we & He & H).
  apply bind_Return_inv in H as (data & wr & Hr & H).
  apply readFileSync_Return in Hr as [F ->].
  apply _ensureCache_steps in He as (w1 & w2 & S1 & S2 & S3).
  assert (path_exists (cacheFile this) w1 = false) as Hn1.
  { destruct (path_exists (cacheDir this) w) eqn:Ed; [by subst|].
    apply (mkdirSync_new _ _ _ Ed) in S1 as ->.
    by rewrite path_exists_other_dir. }
  assert (path_exists (cacheFile this) w2 = false) as Hn2.
  { destruct (path_exists (keyFile this) w1); [by subst|].
    destruct S2 as (wk & Hw & Hc).
    apply writeFileSync_Return in Hw as [Hf Hd].
    apply chmod_step_modes in Hc as (Hf2 & Hd2 & _).
    rewrite (path_exists_same_fs _ wk w2 Hf2 Hd2).
    by rewrite (path_exists_other_file _ _ _ _ wk Hck Hf Hd). }
  rewrite Hn2 in S3. destruct S3 as (wc & Hwc & Hcc).
  apply writeFileSync_Return in Hwc as [Hf3 _].
  apply chmod_step_modes in Hcc as (Hf4 & _).
  rewrite Hf4, Hf3, lookup_insert_eq in F. injection F as <-.
  rewrite JSON_parse_stringify in H.
  by apply ret_eq in H as [[= ->] _].
Qed.

(** X9.  On a host without mapping file, [get] on a store with fallback
    forced returns [null], whatever else happens on the way. *)
Theorem get_without_mapping_is_null service w0 account w :
  path_exists (cacheFile (constructor service (Some true) w0)) w = false ->
  (get (constructor service (Some true) w0) account w).1 = Return None.
Proof.
  intros Hn. rewrite get_forced by done.
  destruct (_getFallback _ account w) as [[v|e] w1] eqn:E; [|done].
  unfold _getFallback in E.
  apply bind_Return_inv in E as (c & wr & Hr & E).
  pose proof (_readCache_missing _ _ _ _
                (constructor_mapping_not_dir service (Some true) w0)
                (constructor_files_differ service (Some true) w0) Hn Hr) as ->.
  change (obj_get ∅ account) with
    (if bool_decide (account ∈ object_prototype_names)
     then JsInherited account else JsUndefined) in E.
  case_bool_decide; simpl in E.
  - unfold try_catch in E.
    destruct (_decrypt_not_string (constructor service (Some true) w0)
                (JsInherited account) wr) as (e & Hd); [done|].
    rewrite (bind_Throw _ _ _ _ _ Hd) in E. by injection E as <- _.
  - by injection E as <- _.
Qed.

(** ** When the native back end cannot be used *)

(** The call by which [_hasSecretTool] looks for the tool. *)
Definition probe : ExecCall := mkExecCall "command -v secret-tool" None.

(** The platform is none of the three, or it is Linux and the search for
    [secret-tool] fails, leaving the files alone. *)
Definition native_unavailable (w : World) : Prop :=
  (platform w = "linux" /\
   forall log fs, tool w log probe fs = (None, fs)) \/
  (platform w <> "darwin" /\ platform w <> "win32" /\
   platform w <> "linux").

Lemma native_unavailable_same w w' :
  platform w' = platform w -> tool w' = tool w ->
  native_unavailable w -> native_unavailable w'.
Proof. unfold native_unavailable. by intros -> ->. Qed.

Lemma _hasSecretTool_missing w :
  (forall log fs, tool w log probe fs = (None, fs)) ->
  exists w', _hasSecretTool w = (Return false, w') /\
             files w' = files w /\ dirs w' = dirs w /\
             platform w' = platform w /\ tool w' = tool w /\
             warnings w' = warnings w.
Proof.
  intros Hp. unfold _hasSecretTool, try_catch, bind, execSync.
  fold probe. rewrite Hp. simpl. eexists. split; [reflexivity|]. done.
Qed.

Lemma dispatch_unsupported {A} (mac win lin : M A) w :
  platform w <> "darwin" -> platform w <> "win32" -> platform w <> "linux" ->
  (m <- _isMac ;; if m then mac else
   x <- _isWindows ;; if x then win else
   l <- _isLinux ;; if l then lin else
   throw (Error "Unsupported platform")) w
  = (Throw (Error "Unsupported platform"), w).
Proof.
  intros H1%String.eqb_neq H2%String.eqb_neq H3%String.eqb_neq.
  unfold bind, _isMac, _isWindows, _isLinux. by rewrite H1, H2, H3.
Qed.

Lemma dispatch_linux {A} (mac win lin : M A) w :
  platform w = "linux" ->
  (m <- _isMac ;; if m then mac else
   x <- _isWindows ;; if x then win else
   l <- _isLinux ;; if l then lin else
   throw (Error "Unsupported platform")) w
  = lin w.
Proof.
  intros P. unfold bind, _isMac, _isWindows, _isLinux.
  rewrite P. change (String.eqb "linux" "darwin") with false.
  cbv beta iota. rewrite P. change (String.eqb "linux" "win32") with false.
  cbv beta iota. by rewrite P.
Qed.

(** What a world keeps when only the record of calls and the warnings
    have grown. *)
Definition same_cache (w w' : World) : Prop :=
  files w' = files w /\ dirs w' = dirs w /\
  platform w' = platform w /\ tool w' = tool w.

Lemma _saveNative_unavailable this account password w :
  native_unavailable w ->
  exists e w', _saveNative this account password w = (Throw e, w') /\
               same_cache w w'.
Proof.
  intros [[P Hp] | (H1 & H2 & H3)].
  - unfold _saveNative. rewrite dispatch_linux by done.
    destruct (_hasSecretTool_missing w Hp) as (w' & Hh & ? & ? & ? & ? & _).
    unfold _saveLinux. rewrite (bind_Return _ _ _ _ _ Hh).
    exists secret_tool_missing, w'. done.
  - unfold _saveNative. rewrite dispatch_unsupported by done.
    eexists _, w. done.
Qed.

Lemma _getNative_unavailable this account w :
  native_unavailable w ->
  exists e w', _getNative this account w = (Throw e, w') /\
               same_cache w w'.
Proof.
  intros [[P Hp] | (H1 & H2 & H3)].
  - unfold _getNative. rewrite dispatch_linux by done.
    destruct (_hasSecretTool_missing w Hp) as (w' & Hh & ? & ? & ? & ? & _).
    unfold _getLinux. rewrite (bind_Return _ _ _ _ _ Hh).
    exists secret_tool_missing, w'. done.
  - unfold _getNative. rewrite dispatch_unsupported by done.
    eexists _, w. done.
Qed.

Lemma holds_same_fs this w w' account text :
  files w' = files w -> dirs w' = dirs w ->
  holds this w account text -> holds this w' account text.
Proof.
  intros Hf Hd (key & c & w0 & R & Fk & Lk & Fc & E).
  exists key, c, w0. rewrite Hf.
  split; [by eapply cache_ready_same_fs | done].
Qed.

(** X10.  When the native back end cannot be used (the platform is none of
    the three, or it is Linux and [secret-tool] is not found), a store
    without forced fallback still gives back what was saved, when the
    secret is well formed (it comes back from UTF-8 encoding and
    decoding) and the mapping file (if there is one) holds an object of
    strings: [save] falls back to the cache, and so does the [get] that
    follows.  The account [__proto__] is excepted. *)
Theorem unavailable_native_round_trip service w0 account password w w1 :
  native_unavailable w ->
  account <> "__proto__" ->
  utf8_stable password ->
  mapping_typed (constructor service None w0) w ->
  save (constructor service None w0) account password w = (Return tt, w1) ->
  (get (constructor service None w0) account w1).1 = Return (Some password).
Proof.
  set (this := constructor service None w0). intros Hu Ha Up _ H.
  pose proof (constructor_files_differ service None w0) as Hne.
  destruct (_saveNative_unavailable this account password w Hu)
    as (e & wn & Hn & _ & _ & Pn & Tn).
  unfold save, try_catch in H. simpl in H. rewrite Hn in H.
  unfold bind at 1 in H. unfold console_warn at 1 in H.
  pose proof (keeps_saveFallback platform this account password) as Kp.
  pose proof (keeps_saveFallback tool this account password) as Kt.
  specialize (Kp (with_warnings
    (warnings wn ++
     ["Native credential storage failed, using fallback: " +:+
      error_to_string e]) wn)).
  specialize (Kt (with_warnings
    (warnings wn ++
     ["Native credential storage failed, using fallback: " +:+
      error_to_string e]) wn)).
  rewrite H in Kp, Kt. simpl in Kp, Kt.
  assert (native_unavailable w1) as Hu1.
  { eapply native_unavailable_same; [| |exact Hu]; congruence. }
  apply (holds_saved this) in H; [|done..].
  destruct (_getNative_unavailable this account w1 Hu1)
    as (e' & wn' & Hn' & Hf & Hd & _).
  unfold get, try_catch. simpl. rewrite Hn'.
  unfold bind at 1. unfold console_warn at 1.
  erewrite (holds_getFallback _ _ _ password); [by rewrite Up|].
  eapply holds_same_fs; [| |exact H]; done.
Qed.

(** X11.  On macOS, when every external command fails, a [save] on a store
    without forced fallback returns normally, the secret going to the
    cache, but the [get] that follows returns [null]: [_getMac] answers
    [null] itself and [get] never turns to the cache. *)
Theorem mac_get_misses_fallback_save this account password w w1 :
  platform w = "darwin" ->
  useFallback this = false ->
  (forall log call fs, (tool w log call fs).1 = None) ->
  save this account password w = (Return tt, w1) ->
  (get this account w1).1 = Return None.
Proof.
  intros P U Ht H.
  assert (platform w1 = platform w /\ tool w1 = tool w) as [P1 T1].
  { unfold save, try_catch in H. rewrite U in H. simpl in H.
    unfold _saveNative in H. unfold bind at 1 in H. unfold _isMac in H.
    rewrite P in H. simpl in H.
    unfold _saveMac, bind, execSync in H.
    rewrite (Ht (exec_log w)) in H.
    unfold console_warn at 1 in H.
    match type of H with
    | _saveFallback _ _ _ ?wx = _ =>
        pose proof (keeps_saveFallback platform this account password wx)
          as Kp;
        pose proof (keeps_saveFallback tool this account password wx)
          as Kt
    end.
    rewrite H in Kp, Kt. done. }
  unfold get, try_catch. rewrite U. simpl.
  unfold _getNative. unfold bind at 1. unfold _isMac.
  rewrite P1, P. simpl.
  unfold _getMac, try_catch, bind, execSync. rewrite T1, Ht. done.
Qed.

Lemma keeps_getFilePath {X} (f : World -> X) `{!HostField f} this account :
  keeps f (_getFilePath this account).
Proof.
  intros w. unfold _getFilePath.
  set (dir := path_join _ "keyvault").
  assert (keeps f
            (e <- existsSync dir ;;
             (if negb e then mkdirSync dir else ret tt) ;;;
             ret (path_join dir
                    (service this +:+ "-" +:+ account +:+ ".txt")))) as K
    by effects.
  apply K.
Qed.

Lemma keeps_deleteWindows {X} (f : World -> X) `{!HostField f} this account :
  keeps f (_deleteWindows this account).
Proof.
  unfold _deleteWindows. pose proof (keeps_getFilePath f this account).
  effects.
Qed.

(** X12.  On Windows no external command is ever run by [delete]: the native
    attempt only unlinks the file of the credential, and the fallback
    does not run commands either. *)
Theorem windows_delete_runs_no_command this account w :
  platform w = "win32" ->
  exec_log (delete this account w).2 = exec_log w.
Proof.
  intros P.
  pose proof (keeps_deleteWindows exec_log this account) as Kw.
  pose proof (keeps_deleteFallback exec_log this account) as Kf.
  unfold delete, try_catch.
  destruct (useFallback this); simpl.
  - specialize (Kf w).
    by destruct (_deleteFallback this account w) as [[|] ?].
  - assert (_deleteNative this account w = _deleteWindows this account w)
      as ->.
    { unfold _deleteNative, bind, _isMac, _isWindows. rewrite P.
      change (String.eqb "win32" "darwin") with false.
      cbv beta iota. by rewrite P. }
    specialize (Kw w).
    destruct (_deleteWindows this account w) as [[|e] w1]; [done|].
    simpl in Kw. unfold bind, console_warn. simpl.
    by rewrite Kf.
Qed.

(** ** What the cache operations never overwrite *)

Lemma steady_throw {A} e : steady (@throw A e).
Proof. intros w. apply extends_refl. Qed.

Lemma steady_readFileSync p : steady (readFileSync p).
Proof.
  intros w. unfold readFileSync.
  destruct (files w !! p); apply extends_refl.
Qed.

Lemma steady_readCache this : steady (_readCache this).
Proof.
  unfold _readCache.
  apply steady_bind; [apply steady_ensureCache | intros _].
  apply steady_bind; [apply steady_readFileSync | intros data].
  destruct (JSON_parse (utf8_decode data));
    [apply steady_ret | apply steady_throw].
Qed.

Lemma steady_decrypt this data : steady (_decrypt this data).
Proof.
  intros w. destruct (_decrypt this data w) as [r w'] eqn:E.
  apply _decrypt_world in E as ->. apply extends_refl.
Qed.

Lemma steady_getFallback this account : steady (_getFallback this account).
Proof.
  unfold _getFallback.
  apply steady_bind; [apply steady_readCache | intros c].
  destruct (negb (truthy (obj_get c account))); [apply steady_ret|].
  intros w. unfold try_catch, bind.
  pose proof (steady_decrypt this (obj_get c account) w) as X.
  by destruct (_decrypt this (obj_get c account) w) as [[|] ?].
Qed.

(** X13.  [get] on a store with fallback forced never changes a file that
    exists: whatever it returns, every file keeps its content (files
    of the cache that are missing may be made). *)
Theorem forced_get_keeps_files this account w p data :
  useFallback this = true ->
  files w !! p = Some data ->
  files (get this account w).2 !! p = Some data.
Proof.
  intros U F. rewrite get_forced by done.
  pose proof (steady_getFallback this account w) as [_ X].
  destruct (_getFallback this account w) as [[|] ?]; by apply X.
Qed.

Lemma writeFileSync_other p data q w :
  q <> p -> files (writeFileSync p data w).2 !! q = files w !! q.
Proof.
  intros Hq. unfold writeFileSync. case_bool_decide; [done|].
  destruct (write_refused w p); [done|].
  destruct (disk_free w) as [n|];
    [cbv zeta; destruct (Nat.leb (length data) _)|];
    simpl; by rewrite lookup_insert_ne.
Qed.

Lemma _writeCache_keeps_key this obj w key :
  cacheFile this <> keyFile this ->
  files w !! keyFile this = Some key ->
  files (_writeCache this obj w).2 !! keyFile this = Some key.
Proof.
  intros Hne F. unfold _writeCache, bind.
  pose proof (steady_ensureCache this w) as [_ X].
  destruct (_ensureCache this w) as [[[]|e] w1]; simpl in X |- *.
  - rewrite writeFileSync_other by done. by apply X.
  - by apply X.
Qed.

(** X14.  Once there is a key file, no operation of a store with fallback
    forced changes it, whether the operation returns or throws: the
    key is never replaced. *)
Theorem forced_store_never_replaces_key service w0 account password w key :
  files w !! keyFile (constructor service (Some true) w0) = Some key ->
  files (save (constructor service (Some true) w0) account password w).2
    !! keyFile (constructor service (Some true) w0) = Some key /\
  files (get (constructor service (Some true) w0) account w).2
    !! keyFile (constructor service (Some true) w0) = Some key /\
  files (delete (constructor service (Some true) w0) account w).2
    !! keyFile (constructor service (Some true) w0) = Some key.
Proof.
  intros F.
  pose proof (constructor_files_differ service (Some true) w0) as Hne.
  split; [|split].
  - rewrite save_forced by done. unfold _saveFallback, bind.
    pose proof (steady_readCache (constructor service (Some true) w0) w)
      as [_ X].
    destruct (_readCache _ w) as [[c|e] w1]; simpl in X |- *; [|by apply X].
    destruct (_encrypt _ password w1) as [[blob|e] w2] eqn:E;
      apply _encrypt_fs in E as [Hf _].
    + apply _writeCache_keeps_key; [done|]. rewrite Hf. by apply X.
    + simpl. rewrite Hf. by apply X.
  - rewrite get_forced by done.
    pose proof (steady_getFallback (constructor service (Some true) w0)
                  account w) as [_ X].
    destruct (_getFallback _ account w) as [[|] ?]; by apply X.
  - rewrite delete_forced by done. unfold _deleteFallback, bind.
    pose proof (steady_readCache (constructor service (Some true) w0) w)
      as [_ X].
    destruct (_readCache _ w) as [[c|e] w1]; simpl in X |- *; [|by apply X].
    apply _writeCache_keeps_key; [done | by apply X].
Qed.

Lemma _deleteNative_unavailable this account w :
  native_unavailable w ->
  exists e w', _deleteNative this account w = (Throw e, w') /\
               same_cache w w'.
Proof.
  intros [[P Hp] | (H1 & H2 & H3)].
  - unfold _deleteNative. rewrite dispatch_linux by done.
    destruct (_hasSecretTool_missing w Hp) as (w' & Hh & ? & ? & ? & ? & _).
    unfold _deleteLinux. rewrite (bind_Return _ _ _ _ _ Hh).
    exists secret_tool_missing, w'. done.
  - unfold _deleteNative. rewrite dispatch_unsupported by done.
    eexists _, w. done.
Qed.

(** X15.  When the native back end cannot be used, [delete] on a store without
    forced fallback deletes from the cache: after it has returned
    normally, [get] returns [null] for the account. *)
Theorem unavailable_native_delete this account w w1 :
  useFallback this = false ->
  native_unavailable w ->
  delete this account w = (Return tt, w1) ->
  (get this account w1).1 = Return None.
Proof.
  intros U Hu H.
  destruct (_deleteNative_unavailable this account w Hu)
    as (e & wn & Hn & _ & _ & Pn & Tn).
  unfold delete, try_catch in H. rewrite U in H. simpl in H.
  rewrite Hn in H. unfold bind at 1 in H. unfold console_warn at 1 in H.
  match type of H with
  | _deleteFallback _ _ ?wx = _ =>
      pose proof (keeps_deleteFallback platform this account wx) as Kp;
      pose proof (keeps_deleteFallback tool this account wx) as Kt
  end.
  rewrite H in Kp, Kt. simpl in Kp, Kt.
  assert (native_unavailable w1) as Hu1.
  { eapply native_unavailable_same; [| |exact Hu]; congruence. }
  apply _deleteFallback_Return in H as (c0 & wa & _ & R & Fc).
  destruct (_getNative_unavailable this account w1 Hu1)
    as (e' & wn' & Hn' & Hf & Hd & _).
  unfold get, try_catch. rewrite U. simpl. rewrite Hn'.
  unfold bind at 1. unfold console_warn at 1.
  erewrite (_getFallback_no_own this account _ (obj_delete c0 account));
    [done | | apply lookup_delete_eq].
  apply _readCache_written.
  - eapply cache_ready_same_fs; [| |exact R]; done.
  - simpl. by rewrite Hf.
Qed.

End Further.

(** * The password prompt of [src/cli.ts]

    [promptPassword] registers a handler for the chunks of data read
    from the terminal.  The handler is modelled as a function on the
    state it works on.  In this part a JavaScript string is the list of
    its UTF-16 code units, since the handler cuts strings by code
    unit. *)
Module Cli.
Local Open Scope list_scope.

Record Prompt : Type := mkPrompt {
  password : list N;            (* the variable [password] *)
  written : list (list N);      (* the calls of [output.write], in order *)
  raw_mode : bool;              (* what [input.setRawMode] was last given *)
  rl_closed : bool;             (* [rl.close()] was called *)
  resolved : option (list N);   (* what the promise was resolved with *)
  exited : option Z             (* [process.exit(code)] was called *)
}.

Definition LF : list N := [10%N].          (* '\n' *)
Definition CR : list N := [13%N].          (* '\r' *)
Definition EOT : list N := [4%N].          (* '\u0004' *)
Definition ETX : list N := [3%N].          (* '\u0003' *)
Definition DEL : list N := [127%N].        (* '\u007f' *)
Definition BS : list N := [8%N].           (* '\b' *)
Definition star : list N := [42%N].        (* '*' *)
Definition erase : list N := [8%N; 32%N; 8%N].   (* '\b \b' *)

(** The state when the handler is registered. *)
Definition promptPassword (prompt : list N) : Prompt :=
  mkPrompt [] [prompt] true false None None.

(** The handler of the ['data'] event; [byte] is [char.toString()].  A
    promise keeps the first value it was resolved with, and nothing runs
    after [process.exit]. *)
Definition on_data (byte : list N) (st : Prompt) : Prompt :=
  match exited st with
  | Some _ => st
  | None =>
      if bool_decide (byte = LF) || bool_decide (byte = CR)
         || bool_decide (byte = EOT)
      then mkPrompt (password st) (written st ++ [LF]) false true
             (match resolved st with
              | None => Some (password st)
              | Some v => Some v
              end) None
      else if bool_decide (byte = ETX)
      then mkPrompt (password st) (written st) (raw_mode st) (rl_closed st)
             (resolved st) (Some 0%Z)
      else if bool_decide (byte = DEL) || bool_decide (byte = BS)
      then if Nat.ltb 0 (length (password st))
           then mkPrompt (removelast (password st)) (written st ++ [erase])
                  (raw_mode st) (rl_closed st) (resolved st) None
           else st
      else mkPrompt (password st ++ byte) (written st ++ [star])
             (raw_mode st) (rl_closed st) (resolved st) None
  end.

(** The chunks [chunks] arrive one after the other. *)
Definition run (chunks : list (list N)) (st : Prompt) : Prompt :=
  foldl (fun s byte => on_data byte s) st chunks.

(** A chunk the handler takes as text. *)
Definition plain (byte : list N) : Prop :=
  byte <> LF /\ byte <> CR /\ byte <> EOT /\ byte <> ETX /\
  byte <> DEL /\ byte <> BS.

(** What was written after the prompt. *)
Definition echoed (st : Prompt) : list (list N) := drop 1 (written st).

Definition count_of (x : list N) (l : list (list N)) : nat :=
  length (filter (fun y => y = x) l).

Lemma on_data_plain byte st :
  plain byte -> exited st = None ->
  on_data byte st
  = mkPrompt (password st ++ byte) (written st ++ [star])
      (raw_mode st) (rl_closed st) (resolved st) None.
Proof.
  intros (H1 & H2 & H3 & H4 & H5 & H6) E. unfold on_data. rewrite E.
  by rewrite !bool_decide_eq_false_2.
Qed.

Lemma run_plain chunks st :
  Forall plain chunks -> exited st = None ->
  password (run chunks st) = password st ++ concat chunks /\
  written (run chunks st) = written st ++ replicate (length chunks) star /\
  resolved (run chunks st) = resolved st /\
  exited (run chunks st) = None.
Proof.
  intros Hc. revert st. induction Hc as [|byte chunks Hb _ IH]; intros st E.
  - simpl. by rewrite !app_nil_r.
  - simpl. rewrite on_data_plain by done.
    destruct (IH (mkPrompt (password st ++ byte) (written st ++ [star])
                    (raw_mode st) (rl_closed st) (resolved st) None)
                eq_refl) as (-> & -> & -> & ->).
    simpl. by rewrite <- !app_assoc.
Qed.

(** X16.  When the chunks that arrive are all text, the password is their
    concatenation, one star has been written for each chunk, and the
    carriage return that follows resolves the promise with that
    password, writes a line feed and leaves raw mode. *)
Theorem typed_password_is_resolved prompt chunks :
  Forall plain chunks ->
  let st := run chunks (promptPassword prompt) in
  password st = concat chunks /\
  written st = prompt :: replicate (length chunks) star /\
  resolved st = None /\
  resolved (on_data CR st) = Some (concat chunks) /\
  written (on_data CR st)
  = prompt :: replicate (length chunks) star ++ [LF] /\
  raw_mode (on_data CR st) = false.
Proof.
  intros Hc st.
  destruct (run_plain chunks (promptPassword prompt) Hc eq_refl)
    as (Hp & Hw & Hr & He).
  fold st in Hp, Hw, Hr, He. simpl in Hp, Hw, Hr.
  split; [done|]. split; [done|]. split; [done|].
  unfold on_data. rewrite He. simpl. by rewrite Hr, Hp, Hw.
Qed.

(** X17.  A chunk of two code units or more is always taken as text, whatever
    it contains: it is appended whole to the password and one star is
    written.  So a line pasted together with its line end does not end
    the prompt. *)
Theorem long_chunk_is_text byte st :
  2 <= length byte ->
  exited st = None ->
  password (on_data byte st) = password st ++ byte /\
  written (on_data byte st) = written st ++ [star] /\
  resolved (on_data byte st) = resolved st /\
  exited (on_data byte st) = None.
Proof.
  intros L E.
  assert (plain byte) as Hp.
  { repeat split; intros ->; simpl in L; lia. }
  by rewrite on_data_plain.
Qed.

Lemma count_of_app x l1 l2 :
  count_of x (l1 ++ l2) = count_of x l1 + count_of x l2.
Proof. unfold count_of. by rewrite filter_app, length_app. Qed.

Lemma echoed_app st x :
  written st <> [] -> drop 1 (written st ++ [x]) = drop 1 (written st) ++ [x].
Proof. destruct (written st); [done|]. intros _. simpl. by rewrite !drop_0. Qed.

(** The invariant of the mask. *)
Definition mask_fits (st : Prompt) : Prop :=
  written st <> [] /\
  count_of star (echoed st)
  = count_of erase (echoed st) + length (password st).

Lemma on_data_mask_fits byte st :
  length byte = 1 -> mask_fits st -> mask_fits (on_data byte st).
Proof.
  intros L [Hw Hm]. unfold on_data.
  assert (count_of star [LF] = 0 /\ count_of erase [LF] = 0 /\
          count_of star [erase] = 0 /\ count_of erase [erase] = 1 /\
          count_of star [star] = 1 /\ count_of erase [star] = 0)
    as (C1 & C2 & C3 & C4 & C5 & C6) by done.
  destruct (exited st); [done|].
  destruct (bool_decide (byte = LF) || bool_decide (byte = CR)
            || bool_decide (byte = EOT)).
  { split; [by destruct (written st)|]. unfold echoed in *.
    cbn [written password].
    rewrite echoed_app by done. rewrite !count_of_app, Hm, C1, C2. lia. }
  destruct (bool_decide (byte = ETX)); [done|].
  destruct (bool_decide (byte = DEL) || bool_decide (byte = BS)).
  - destruct (Nat.ltb 0 (length (password st))) eqn:Lt; [|done].
    apply Nat.ltb_lt in Lt.
    split; [by destruct (written st)|]. unfold echoed in *.
    cbn [written password].
    rewrite echoed_app by done. rewrite !count_of_app, Hm, C3, C4.
    destruct (password st) as [|c l _] using rev_ind; [simpl in Lt; lia|].
    rewrite removelast_last, length_app. simpl. lia.
  - split; [by destruct (written st)|]. unfold echoed in *.
    cbn [written password].
    rewrite echoed_app by done. rewrite !count_of_app, Hm, C5, C6.
    rewrite length_app, L. lia.
Qed.

Lemma run_mask_fits chunks st :
  Forall (fun byte => length byte = 1) chunks ->
  mask_fits st -> mask_fits (run chunks st).
Proof.
  intros Hc. revert st.
  induction Hc as [|byte chunks Hb _ IH]; intros st H0; [done|].
  simpl. apply IH. by apply on_data_mask_fits.
Qed.

(** X18.  When every chunk that arrives is one code unit, the mask fits the
    password at each moment: the stars written so far are as many as the
    erasures written plus the code units of the password. *)
Theorem mask_fits_password prompt chunks :
  Forall (fun byte => length byte = 1) chunks ->
  let st := run chunks (promptPassword prompt) in
  count_of star (echoed st)
  = count_of erase (echoed st) + length (password st).
Proof.
  intros Hc st.
  assert (mask_fits (promptPassword prompt)) as H0 by (split; done).
  by destruct (run_mask_fits chunks _ Hc H0).
Qed.

End Cli.

(** ** Runs of the further properties *)
Module Checks.
Import Scenario Runs.
#[local] Existing Instance Reference.lib.

Definition fresh : World := host "linux" no_tool.

(** The host [stored] without its mapping file. *)
Definition without_mapping : World :=
  with_files (base.delete (cacheFile forced) (files stored)) stored.

(** A host without cache and without room on the disk. *)
Definition full : World := with_disk_free (Some 0) fresh.


(** The key of the cache of [stored]. *)
Definition stored_key : list byte :=
  default [] (files stored !! keyFile forced).

Lemma forced_store_runs_no_command_witness :
  useFallback forced = true /\
  exec_log (save forced "alice" "hunter2" stored).2 = exec_log stored /\
  exec_log (get forced "alice" stored).2 = exec_log stored /\
  exec_log (delete forced "alice" stored).2 = exec_log stored.
Proof.
  split; [reflexivity|].
  exact (forced_store_runs_no_command forced "alice" "hunter2" stored
           eq_refl).
Defined.

Lemma ensureCache_keeps_existing_files_witness :
  files without_mapping !! keyFile forced = Some stored_key /\
  files without_mapping !! cacheFile forced = None /\
  files (_ensureCache forced without_mapping).2 !! keyFile forced
  = Some stored_key.
Proof.
  assert (files without_mapping !! keyFile forced = Some stored_key) as F.
  { vm_compute. reflexivity. }
  split; [exact F|]. split; [vm_compute; reflexivity|].
  exact (ensureCache_keeps_existing_files forced without_mapping
           (keyFile forced) stored_key F).
Defined.

Lemma ensureCache_idempotent_witness :
  let w' := (_ensureCache forced fresh).2 in
  _ensureCache forced fresh = (Return tt, w') /\
  _ensureCache forced w' = (Return tt, w').
Proof.
  cbv zeta.
  assert (_ensureCache forced fresh
          = (Return tt, (_ensureCache forced fresh).2)) as H.
  { vm_compute. reflexivity. }
  split; [exact H|].
  exact (ensureCache_idempotent forced fresh _ H).
Defined.


Lemma get_after_delete_is_null_witness :
  let w1 := (delete forced "bob" stored).2 in
  useFallback forced = true /\
  (get forced "bob" stored).1 = Return (Some "s3cret") /\
  delete forced "bob" stored = (Return tt, w1) /\
  get forced "bob" w1 = (Return None, w1).
Proof.
  cbv zeta.
  assert (delete forced "bob" stored
          = (Return tt, (delete forced "bob" stored).2)) as H.
  { vm_compute. reflexivity. }
  split; [reflexivity|]. split; [vm_compute; reflexivity|].
  split; [exact H|].
  exact (get_after_delete_is_null forced "bob" stored _ eq_refl H).
Defined.

Lemma other_account_stays_retrievable_witness :
  let w1 := (save forced "bob" "s3cret" fresh).2 in
  let w2 := (save forced "alice" "hunter2" w1).2 in
  let w3 := (delete forced "alice" w1).2 in
  "bob" <> "alice" /\ "bob" <> "__proto__" /\
  utf8_stable "s3cret" /\ mapping_typed forced fresh /\
  get forced "bob" w2 = (Return (Some "s3cret"), w2) /\
  get forced "bob" w3 = (Return (Some "s3cret"), w3).
Proof.
  cbv zeta.
  assert ("bob" <> "alice") as N1 by discriminate.
  assert ("bob" <> "__proto__") as N2 by discriminate.
  assert (utf8_stable "s3cret") as U by reflexivity.
  assert (mapping_typed forced fresh) as T
    by (intros data F; vm_compute in F; discriminate).
  assert (save forced "bob" "s3cret" fresh
          = (Return tt, (save forced "bob" "s3cret" fresh).2)) as H1.
  { vm_compute. reflexivity. }
  assert (save forced "alice" "hunter2" (save forced "bob" "s3cret" fresh).2
          = (Return tt,
             (save forced "alice" "hunter2"
                (save forced "bob" "s3cret" fresh).2).2)) as H2.
  { vm_compute. reflexivity. }
  assert (delete forced "alice" (save forced "bob" "s3cret" fresh).2
          = (Return tt,
             (delete forced "alice"
                (save forced "bob" "s3cret" fresh).2).2)) as H3.
  { vm_compute. reflexivity. }
  split; [exact N1|]. split; [exact N2|].
  split; [exact U|]. split; [exact T|]. split.
  - exact (other_account_stays_retrievable "svc" (host "linux" no_tool)
             "alice" "hunter2" "bob" "s3cret" fresh _ _ N1 N2 U T H1
             (or_introl H2)).
  - exact (other_account_stays_retrievable "svc" (host "linux" no_tool)
             "alice" "hunter2" "bob" "s3cret" fresh _ _ N1 N2 U T H1
             (or_intror H3)).
Defined.

Lemma save_proto_stores_nothing_witness :
  let w1 := (save forced "__proto__" "hunter2" stored).2 in
  useFallback forced = true /\
  stored_mapping !! "__proto__" = None /\
  save forced "__proto__" "hunter2" stored = (Return tt, w1) /\
  _readCache forced w1 = (Return stored_mapping, w1) /\
  get forced "__proto__" w1 = (Return None, w1).
Proof.
  cbv zeta.
  assert (_readCache forced stored = (Return stored_mapping, stored)) as Hr.
  { vm_compute. reflexivity. }
  assert (stored_mapping !! "__proto__" = None) as Hn.
  { vm_compute. reflexivity. }
  assert (save forced "__proto__" "hunter2" stored
          = (Return tt, (save forced "__proto__" "hunter2" stored).2)) as H.
  { vm_compute. reflexivity. }
  split; [reflexivity|]. split; [exact Hn|]. split; [exact H|].
  exact (save_proto_stores_nothing forced "hunter2" stored stored_mapping
           stored _ eq_refl Hr Hn H).
Defined.

Lemma ensureCache_makes_key_witness :
  let w' := (_ensureCache forced fresh).2 in
  path_exists (keyFile forced) fresh = false /\
  chmod_supported fresh = true /\
  files w' !! keyFile forced = Some (next_random 32 fresh) /\
  length (next_random 32 fresh) = 32 /\
  modes w' !! keyFile forced = Some mode_600.
Proof.
  cbv zeta.
  assert (path_exists (keyFile forced) fresh = false) as Hn.
  { vm_compute. reflexivity. }
  assert (_ensureCache forced fresh
          = (Return tt, (_ensureCache forced fresh).2)) as H.
  { vm_compute. reflexivity. }
  destruct (ensureCache_makes_key "svc" (Some true) (host "linux" no_tool)
              fresh _ Hn H) as (A & B & C).
  split; [exact Hn|]. split; [reflexivity|]. split; [exact A|].
  split; [exact B | exact (C eq_refl)].
Defined.

Lemma get_without_mapping_is_null_witness :
  path_exists (cacheFile forced) fresh = false /\
  (get forced "alice" fresh).1 = Return None /\
  path_exists (cacheFile forced) full = false /\
  (get forced "alice" full).1 = Return None.
Proof.
  assert (path_exists (cacheFile forced) fresh = false) as H1.
  { vm_compute. reflexivity. }
  assert (path_exists (cacheFile forced) full = false) as H2.
  { vm_compute. reflexivity. }
  split; [exact H1|]. split.
  - exact (get_without_mapping_is_null "svc" (host "linux" no_tool) "alice"
             fresh H1).
  - split; [exact H2|].
    exact (get_without_mapping_is_null "svc" (host "linux" no_tool) "alice"
             full H2).
Defined.

Lemma unavailable_native_round_trip_witness :
  let w1 := (save native "alice" padded fresh).2 in
  native_unavailable fresh /\
  native_unavailable (host "freebsd" quiet_tool) /\
  "alice" <> "__proto__" /\
  utf8_stable padded /\ mapping_typed native fresh /\
  save native "alice" padded fresh = (Return tt, w1) /\
  (get native "alice" w1).1 = Return (Some padded).
Proof.
  cbv zeta.
  assert (utf8_stable padded) as U by reflexivity.
  assert (mapping_typed native fresh) as T
    by (intros data F; vm_compute in F; discriminate).
  assert (native_unavailable fresh) as Hu.
  { left. split; [reflexivity|]. intros log fs. reflexivity. }
  assert ("alice" <> "__proto__") as Ha by discriminate.
  assert (save native "alice" padded fresh
          = (Return tt, (save native "alice" padded fresh).2)) as H.
  { vm_compute. reflexivity. }
  split; [exact Hu|]. split.
  { right. repeat split; discriminate. }
  split; [exact Ha|]. split; [exact U|]. split; [exact T|].
  split; [exact H|].
  exact (unavailable_native_round_trip "svc" (host "linux" no_tool) "alice"
           padded fresh _ Hu Ha U T H).
Defined.

Lemma mac_get_misses_fallback_save_witness :
  let w := host "darwin" no_tool in
  let w1 := (save native "alice" "hunter2" w).2 in
  save native "alice" "hunter2" w = (Return tt, w1) /\
  (_getFallback native "alice" w1).1 = Return (Some "hunter2") /\
  (get native "alice" w1).1 = Return None.
Proof.
  cbv zeta.
  assert (save native "alice" "hunter2" (host "darwin" no_tool)
          = (Return tt,
             (save native "alice" "hunter2" (host "darwin" no_tool)).2))
    as H.
  { vm_compute. reflexivity. }
  split; [exact H|]. split; [vm_compute; reflexivity|].
  exact (mac_get_misses_fallback_save native "alice" "hunter2"
           (host "darwin" no_tool) _ eq_refl eq_refl
           (fun _ _ _ => eq_refl) H).
Defined.

Lemma windows_delete_runs_no_command_witness :
  let w := (save native "alice" "hunter2" (host "win32" quiet_tool)).2 in
  platform w = "win32" /\
  length (exec_log w) = 1 /\
  exec_log (delete native "alice" w).2 = exec_log w.
Proof.
  cbv zeta.
  assert (platform (save native "alice" "hunter2"
                      (host "win32" quiet_tool)).2 = "win32") as P.
  { vm_compute. reflexivity. }
  split; [exact P|]. split; [vm_compute; reflexivity|].
  exact (windows_delete_runs_no_command native "alice" _ P).
Defined.

Lemma forced_get_keeps_files_witness :
  useFallback forced = true /\
  files without_mapping !! keyFile forced = Some stored_key /\
  files (get forced "bob" without_mapping).2 !! keyFile forced
  = Some stored_key.
Proof.
  assert (files without_mapping !! keyFile forced = Some stored_key) as F.
  { vm_compute. reflexivity. }
  split; [reflexivity|]. split; [exact F|].
  exact (forced_get_keeps_files forced "bob" without_mapping
           (keyFile forced) stored_key eq_refl F).
Defined.

Lemma forced_store_never_replaces_key_witness :
  files nearly_full !! keyFile forced = Some stored_key /\
  (save forced "alice" "hunter2" nearly_full).1
  = Throw (FsError "ENOSPC" (cacheFile forced)) /\
  files (save forced "alice" "hunter2" nearly_full).2 !! keyFile forced
  = Some stored_key /\
  files (get forced "alice" nearly_full).2 !! keyFile forced
  = Some stored_key /\
  files (delete forced "alice" nearly_full).2 !! keyFile forced
  = Some stored_key.
Proof.
  assert (files nearly_full !! keyFile forced = Some stored_key) as F.
  { vm_compute. reflexivity. }
  split; [exact F|]. split; [vm_compute; reflexivity|].
  exact (forced_store_never_replaces_key "svc" (host "linux" no_tool)
           "alice" "hunter2" nearly_full stored_key F).
Defined.

Lemma unavailable_native_delete_witness :
  let w1 := (save native "alice" "hunter2" fresh).2 in
  let w2 := (delete native "alice" w1).2 in
  useFallback native = false /\
  native_unavailable w1 /\
  (get native "alice" w1).1 = Return (Some "hunter2") /\
  delete native "alice" w1 = (Return tt, w2) /\
  (get native "alice" w2).1 = Return None.
Proof.
  cbv zeta.
  assert (native_unavailable (save native "alice" "hunter2" fresh).2) as Hu.
  { left. split; [vm_compute; reflexivity|]. intros log fs. reflexivity. }
  assert (delete native "alice" (save native "alice" "hunter2" fresh).2
          = (Return tt,
             (delete native "alice"
                (save native "alice" "hunter2" fresh).2).2)) as H.
  { vm_compute. reflexivity. }
  split; [reflexivity|]. split; [exact Hu|].
  split; [vm_compute; reflexivity|]. split; [exact H|].
  exact (unavailable_native_delete native "alice" _ _ eq_refl Hu H).
Defined.

(** The prompt: the keys [a], [b], a backspace, [c] and the carriage
    return; then a line pasted with its line end. *)
Definition keys : list (list N) := [[97%N]; [98%N]; Cli.DEL; [99%N]; Cli.CR].

Definition typed : list (list N) := [[97%N]; [98%N]; [99%N]].

Definition pasted : list N := [97%N; 98%N; 10%N].

Lemma typed_password_is_resolved_witness :
  Forall Cli.plain typed /\
  Cli.resolved (Cli.on_data Cli.CR (Cli.run typed (Cli.promptPassword [])))
  = Some [97%N; 98%N; 99%N].
Proof.
  assert (Forall Cli.plain typed) as H.
  { repeat constructor; discriminate. }
  split; [exact H|].
  exact (proj1 (proj2 (proj2 (proj2
           (Cli.typed_password_is_resolved [] typed H))))).
Defined.

Lemma long_chunk_is_text_witness :
  2 <= length pasted /\
  Cli.password (Cli.on_data pasted (Cli.promptPassword [])) = pasted /\
  Cli.resolved (Cli.on_data pasted (Cli.promptPassword [])) = None.
Proof.
  assert (2 <= length pasted) as L by (simpl; lia).
  split; [exact L|].
  destruct (Cli.long_chunk_is_text pasted (Cli.promptPassword []) L eq_refl)
    as (A & _ & C & _).
  split; [exact A | exact C].
Defined.

Lemma mask_fits_password_witness :
  Forall (fun byte : list N => length byte = 1) keys /\
  Cli.resolved (Cli.run keys (Cli.promptPassword [])) = Some [97%N; 99%N] /\
  Cli.count_of Cli.star (Cli.echoed (Cli.run keys (Cli.promptPassword [])))
  = Cli.count_of Cli.erase
      (Cli.echoed (Cli.run keys (Cli.promptPassword []))) +
    length (Cli.password (Cli.run keys (Cli.promptPassword []))).
Proof.
  assert (Forall (fun byte : list N => length byte = 1) keys) as H.
  { repeat constructor. }
  split; [exact H|]. split; [reflexivity|].
  exact (Cli.mask_fits_password [] keys H).
Defined.

End Checks.
